(** * qpolarssl: the private public-key wrapper [qpolarssl::priv::Pki]

    A shallow embedding of [src/library/qpolarsslpki_priv.hpp] and the
    properties of its key context, key loading, message preparation,
    signature and cipher operations.

    The class is a thin layer over two collaborators that are not part of
    the header: the PolarSSL [pk] module (a C library) and Qt
    ([QByteArray], [QFile], [qDebug]).  Their data is modelled below; the
    cryptographic primitives themselves are left as the fields of the
    class [External], so that every statement holds for any behaviour of
    the library. *)

From Stdlib Require Import ZArith List Bool Lia.
From Stdlib.Strings Require Import Byte String.
Import ListNotations.
Local Open Scope Z_scope.

(** ** Machine integers *)

Definition INT_MAX : Z := 2147483647.

(** Conversion of a [size_t] value to [int], as in
    [int maxLength = pk_get_len(context())]: the low 32 bits, read in
    two's complement. *)
Definition int_of_size_t (z : Z) : Z := (z + 2 ^ 31) mod 2 ^ 32 - 2 ^ 31.

(** ** Qt values *)

Module Qt.

Definition QString := string.

(** A [QByteArray] is either null (what [QByteArray()] builds) or owns
    a byte sequence, which may be empty ([QByteArray("")]). *)
Inductive QByteArray : Type :=
| QByteArray_null
| QByteArray_bytes (bs : list byte).

(** [constData()]: the bytes the returned pointer points to.  For a null
    array Qt returns a pointer to an empty string, never [nullptr]. *)
Definition constData (a : QByteArray) : list byte :=
  match a with
  | QByteArray_null => []
  | QByteArray_bytes bs => bs
  end.

(** [length()], an [int]. *)
Definition length (a : QByteArray) : Z := Z.of_nat (List.length (constData a)).

Definition isNull (a : QByteArray) : bool :=
  match a with
  | QByteArray_null => true
  | QByteArray_bytes _ => false
  end.

(** [QByteArray(const char* data, int size)] on a non-null [data]: a deep
    copy of the first [size] bytes.  [data] is the content of the array
    the pointer designates.  Bytes past its end are not represented: for a
    [size] larger than the array the source reads on and returns [size]
    bytes, where this definition stops at the end of the array.  The two
    agree exactly when [size] fits the array, and every statement below
    about the length of such a copy carries that hypothesis. *)
Definition QByteArray_of (data : list byte) (size : nat) : QByteArray :=
  QByteArray_bytes (firstn size data).

End Qt.
Import Qt.

(** ** PolarSSL values *)

(** Modelled from the spec: the algorithm enum of the key context,
    "including a sentinel none" ([pk_type_t] of [polarssl/pk.h], which is
    not part of the header under study). *)
Inductive pk_type_t : Type :=
| POLARSSL_PK_NONE
| POLARSSL_PK_RSA
| POLARSSL_PK_ECKEY
| POLARSSL_PK_ECKEY_DH
| POLARSSL_PK_ECDSA
| POLARSSL_PK_RSA_ALT
| POLARSSL_PK_RSASSA_PSS.

(** Modelled from the spec: the hash algorithms "enumerated by the
    Algorithm registry (none, md5, sha1, sha256, ...)" ([md_type_t] of
    [polarssl/md.h]). *)
Inductive md_type_t : Type :=
| POLARSSL_MD_NONE
| POLARSSL_MD_MD2
| POLARSSL_MD_MD4
| POLARSSL_MD_MD5
| POLARSSL_MD_SHA1
| POLARSSL_MD_SHA224
| POLARSSL_MD_SHA256
| POLARSSL_MD_SHA384
| POLARSSL_MD_SHA512
| POLARSSL_MD_RIPEMD160.

Definition pk_type_eq_dec (a b : pk_type_t) : {a = b} + {a <> b}.
Proof. decide equality. Defined.

Definition md_type_eq_dec (a b : md_type_t) : {a = b} + {a <> b}.
Proof. decide equality. Defined.

(** The algorithm descriptor; the constructor of [Pki] reads its [type]. *)
Record pk_info_t : Type := { type : pk_type_t; name : string }.

(** ** The collaborators *)

(** What the header calls and does not define.  A [pk_context] is the
    pair of pointers of PolarSSL: no descriptor ([pk_info == NULL], the
    empty context) or a descriptor with its key.  A buffer handed to a
    primitive for output comes back as the bytes stored from its start
    and the produced length [olen]; [nullptr] is [None]. *)
Class External : Type := {
  (** the key a typed context points to *)
  pk_key : Type;
  (** the state of the random source, [irandom.context()] *)
  ctr_drbg_context : Type;
  (** size of the output buffers, a macro of [polarssl/bignum.h] *)
  POLARSSL_MPI_MAX_SIZE : nat;
  (** the algorithm registry *)
  pk_info_from_type : pk_type_t -> option pk_info_t;
  (** context initialisation for an algorithm: context, info; the status
      and the context afterwards *)
  pk_init_ctx :
    option (pk_info_t * pk_key) -> pk_info_t -> Z * option (pk_info_t * pk_key);
  get_size_func : pk_info_t -> pk_key -> Z;
  get_len_func : pk_info_t -> pk_key -> Z;
  can_do_func : pk_info_t -> pk_type_t -> Z;
  (** key parsing: context, key, keylen, pwd, pwdlen *)
  pk_parse_key :
    option (pk_info_t * pk_key) -> list byte -> Z -> option (list byte) -> Z ->
    Z * option (pk_info_t * pk_key);
  pk_parse_public_key :
    option (pk_info_t * pk_key) -> list byte -> Z ->
    Z * option (pk_info_t * pk_key);
  (** signature: context, md_alg, hash, hash_len, rng state *)
  pk_sign :
    option (pk_info_t * pk_key) -> md_type_t -> list byte -> Z -> ctr_drbg_context ->
    Z * list byte * nat * option (pk_info_t * pk_key) * ctr_drbg_context;
  (** verification: context, md_alg, hash, hash_len, sig, sig_len *)
  pk_verify :
    option (pk_info_t * pk_key) -> md_type_t -> list byte -> Z -> list byte -> Z ->
    Z * option (pk_info_t * pk_key);
  (** encryption and decryption: context, input, ilen, osize, rng state *)
  pk_encrypt :
    option (pk_info_t * pk_key) -> list byte -> Z -> nat -> ctr_drbg_context ->
    Z * list byte * nat * option (pk_info_t * pk_key) * ctr_drbg_context;
  pk_decrypt :
    option (pk_info_t * pk_key) -> list byte -> Z -> nat -> ctr_drbg_context ->
    Z * list byte * nat * option (pk_info_t * pk_key) * ctr_drbg_context;
  (** [Hash::hash] of [qpolarsslhash_priv.hpp] *)
  Hash_hash : QByteArray -> md_type_t -> QByteArray;
  (** [QFile::open(QFile::ReadOnly)] and [QFile::readAll()] on a path *)
  QFile_open : QString -> bool;
  QFile_readAll : QString -> QByteArray
}.

Section NativeContext.
Context `{External}.

Definition pk_context : Type := option (pk_info_t * pk_key).

(** Modelled from the spec: "construct(algorithm?): empty if no algorithm
    given" ([pk_init] of PolarSSL). *)
Definition pk_init : pk_context := None.

(** Modelled from the spec: "releases native resource, returns to empty;
    safe to call repeatedly" ([pk_free] of PolarSSL). *)
Definition pk_free (ctx : pk_context) : pk_context := None.

(** Modelled from the spec: key sizes are "defined only when valid; 0
    otherwise" ([pk_get_size] and [pk_get_len] of PolarSSL). *)
Definition pk_get_size (ctx : pk_context) : Z :=
  match ctx with
  | None => 0
  | Some (info, key) => get_size_func info key
  end.

Definition pk_get_len (ctx : pk_context) : Z :=
  match ctx with
  | None => 0
  | Some (info, key) => get_len_func info key
  end.

(** Modelled from the spec: "canDo(algorithm): capability check against
    the current type; false when empty" ([pk_can_do] of PolarSSL). *)
Definition pk_can_do (ctx : pk_context) (t : pk_type_t) : Z :=
  match ctx with
  | None => 0
  | Some (info, _) => can_do_func info t
  end.

(** Modelled from the spec: "type == none iff the context holds no
    usable key" ([pk_get_type] of PolarSSL). *)
Definition pk_get_type (ctx : pk_context) : pk_type_t :=
  match ctx with
  | None => POLARSSL_PK_NONE
  | Some (info, _) => type info
  end.

End NativeContext.

(** ** Observable effects

    What a method does besides returning: the lines it hands to [qDebug]
    (format string and arguments) and the calls it makes to the
    cryptographic primitives, with their arguments. *)
Inductive Event : Type :=
| qDebug (fmt : string) (args : list Z)
| call_pk_parse_key (key : list byte) (keylen : Z) (pwd : option (list byte)) (pwdlen : Z)
| call_pk_parse_public_key (key : list byte) (keylen : Z)
| call_pk_sign (md_alg : md_type_t) (hash : list byte) (hash_len : Z)
| call_pk_verify (md_alg : md_type_t) (hash : list byte) (hash_len : Z)
                 (sig : list byte) (sig_len : Z)
| call_pk_encrypt (input : list byte) (ilen : Z) (osize : nat)
| call_pk_decrypt (input : list byte) (ilen : Z) (osize : nat).

Definition is_qDebug (e : Event) : bool :=
  match e with qDebug _ _ => true | _ => false end.

Definition is_call_pk_encrypt (e : Event) : bool :=
  match e with call_pk_encrypt _ _ _ => true | _ => false end.

Definition is_call_pk_decrypt (e : Event) : bool :=
  match e with call_pk_decrypt _ _ _ => true | _ => false end.

(** ** The class [Pki] *)

Module Pki.
Section Class_Pki.
Context `{External}.

(** The data members: [irandom], [itype] and [ictx]. *)
Record t : Type := {
  irandom : ctr_drbg_context;
  itype : pk_type_t;
  ictx : pk_context
}.

(** *** Methods as state transformers *)

Record Result (A : Type) : Type := {
  value : A;
  self : t;
  events : list Event
}.
Arguments value {A} _.
Arguments self {A} _.
Arguments events {A} _.

Definition M (A : Type) : Type := t -> Result A.

Definition ret {A} (a : A) : M A :=
  fun p => {| value := a; self := p; events := [] |}.

Definition bind {A B} (m : M A) (k : A -> M B) : M B :=
  fun p =>
    let r := m p in
    let r' := k (value r) (self r) in
    {| value := value r'; self := self r'; events := events r ++ events r' |}.

Definition gets {A} (f : t -> A) : M A :=
  fun p => {| value := f p; self := p; events := [] |}.

Definition emit (e : Event) : M unit :=
  fun p => {| value := tt; self := p; events := [e] |}.

Definition when (b : bool) (m : M unit) : M unit :=
  if b then m else ret tt.

End Class_Pki.

Arguments value {_ A} _.
Arguments self {_ A} _.
Arguments events {_ A} _.

Declare Scope pki_scope.
Delimit Scope pki_scope with pki.
Notation "x <- m ;; k" := (bind m (fun x => k))
  (at level 61, m at next level, right associativity) : pki_scope.
Notation "' pat <- m ;; k" := (bind m (fun x => match x with pat => k end))
  (at level 61, pat pattern, m at next level, right associativity) : pki_scope.
Notation "m ;; k" := (bind m (fun _ => k))
  (at level 61, right associativity) : pki_scope.

Section Methods.
Context `{External}.
Local Open Scope pki_scope.

(** *** Calls into PolarSSL

    Each wrapper runs the primitive on the members it is given
    ([context()], [irandom.context()]), stores what the primitive did to
    them and records the call. *)

Definition do_pk_parse_key (key : list byte) (keylen : Z)
           (pwd : option (list byte)) (pwdlen : Z) : M Z :=
  fun p =>
    let '(nRet, ctx') := pk_parse_key (ictx p) key keylen pwd pwdlen in
    {| value := nRet;
       self := {| irandom := irandom p; itype := itype p; ictx := ctx' |};
       events := [call_pk_parse_key key keylen pwd pwdlen] |}.

Definition do_pk_parse_public_key (key : list byte) (keylen : Z) : M Z :=
  fun p =>
    let '(nRet, ctx') := pk_parse_public_key (ictx p) key keylen in
    {| value := nRet;
       self := {| irandom := irandom p; itype := itype p; ictx := ctx' |};
       events := [call_pk_parse_public_key key keylen] |}.

(** A local [uint8_t buffer[POLARSSL_MPI_MAX_SIZE] = {0}]. *)
Definition buffer0 : list byte := repeat x00 POLARSSL_MPI_MAX_SIZE.

(** The buffer after a primitive stored [out] from its start; stores
    past the end of the array are not represented. *)
Definition stored (buffer out : list byte) : list byte :=
  firstn (List.length buffer) (out ++ skipn (List.length out) buffer).

Definition do_pk_sign (md_alg : md_type_t) (hash : list byte) (hash_len : Z)
           (buffer : list byte) : M (Z * list byte * nat) :=
  fun p =>
    let '(nRet, out, olen, ctx', rnd') :=
      pk_sign (ictx p) md_alg hash hash_len (irandom p) in
    {| value := (nRet, stored buffer out, olen);
       self := {| irandom := rnd'; itype := itype p; ictx := ctx' |};
       events := [call_pk_sign md_alg hash hash_len] |}.

Definition do_pk_verify (md_alg : md_type_t) (hash : list byte) (hash_len : Z)
           (sig : list byte) (sig_len : Z) : M Z :=
  fun p =>
    let '(nRet, ctx') := pk_verify (ictx p) md_alg hash hash_len sig sig_len in
    {| value := nRet;
       self := {| irandom := irandom p; itype := itype p; ictx := ctx' |};
       events := [call_pk_verify md_alg hash hash_len sig sig_len] |}.

Definition do_pk_encrypt (input : list byte) (ilen : Z)
           (buffer : list byte) (osize : nat) : M (Z * list byte * nat) :=
  fun p =>
    let '(nRet, out, olen, ctx', rnd') :=
      pk_encrypt (ictx p) input ilen osize (irandom p) in
    {| value := (nRet, stored buffer out, olen);
       self := {| irandom := rnd'; itype := itype p; ictx := ctx' |};
       events := [call_pk_encrypt input ilen osize] |}.

Definition do_pk_decrypt (input : list byte) (ilen : Z)
           (buffer : list byte) (osize : nat) : M (Z * list byte * nat) :=
  fun p =>
    let '(nRet, out, olen, ctx', rnd') :=
      pk_decrypt (ictx p) input ilen osize (irandom p) in
    {| value := (nRet, stored buffer out, olen);
       self := {| irandom := rnd'; itype := itype p; ictx := ctx' |};
       events := [call_pk_decrypt input ilen osize] |}.

(** *** Construction *)

(** [explicit Pki(const pk_info_t* pinfo)].  The member [ictx] has no
    initialiser: [storage] is what its memory holds when the constructor
    body starts, and [rnd] is the state the member [irandom] is
    constructed with.  With a descriptor the body assigns [itype] and
    calls [pk_init_ctx] on the storage as it is, dropping the status;
    without one it calls [pk_init], which overwrites the storage. *)
Definition Pki_info (storage : pk_context) (rnd : ctr_drbg_context)
           (pinfo : option pk_info_t) : t :=
  match pinfo with
  | Some info =>
      {| irandom := rnd; itype := type info;
         ictx := snd (pk_init_ctx storage info) |}
  | None =>
      {| irandom := rnd; itype := POLARSSL_PK_NONE; ictx := pk_init |}
  end.

(** [explicit Pki(pk_type_t t = POLARSSL_PK_NONE)]. *)
Definition Pki (storage : pk_context) (rnd : ctr_drbg_context) (ty : pk_type_t) : t :=
  Pki_info storage rnd (pk_info_from_type ty).

(** *** Key context *)

Definition isValid (p : t) : bool :=
  if pk_type_eq_dec (itype p) POLARSSL_PK_NONE then false else true.

Definition reset : M unit :=
  fun p =>
    {| value := tt;
       self := {| irandom := irandom p; itype := itype p;
                  ictx := pk_free (ictx p) |};
       events := [] |}.

Definition keySizeBits (p : t) : Z := pk_get_size (ictx p).

Definition keySizeBytes (p : t) : Z := pk_get_len (ictx p).

Definition canDo (ty : pk_type_t) (p : t) : bool := pk_can_do (ictx p) ty =? 1.

Definition type (p : t) : pk_type_t := pk_get_type (ictx p).

(** *** Key loading *)

Definition parseKey (keyData password : QByteArray) : M Z :=
  let key := constData keyData in
  let pwd := if Qt.length password >? 0 then Some (constData password) else None in
  reset ;;
  nRet <- do_pk_parse_key key (Qt.length keyData) pwd (Qt.length password) ;;
  when (negb (nRet =? 0))
       (emit (qDebug "pk_parse_key() failed. error: -0x%X" [- nRet])) ;;
  ret nRet.

Definition parsePublicKey (keyData : QByteArray) : M Z :=
  let key := constData keyData in
  reset ;;
  nRet <- do_pk_parse_public_key key (Qt.length keyData) ;;
  when (negb (nRet =? 0))
       (emit (qDebug "pk_parse_public_key() failed. error: -0x%X" [- nRet])) ;;
  ret nRet.

(** [keyData] is default-constructed and assigned [f.readAll()] only when
    [f.open(QFile::ReadOnly)] succeeds. *)
Definition parseKeyFrom (filePath : QString) (password : QByteArray) : M Z :=
  let keyData :=
    if QFile_open filePath then QFile_readAll filePath else QByteArray_null in
  parseKey keyData password.

Definition parsePublicKeyFrom (filePath : QString) : M Z :=
  let keyData :=
    if QFile_open filePath then QFile_readAll filePath else QByteArray_null in
  parsePublicKey keyData.

(** *** Message preparation *)

(** checks if the message needs to be converted to a hash. *)
Definition prepare (message : QByteArray) (algo : md_type_t) (p : t) : QByteArray :=
  let maxLength := int_of_size_t (pk_get_len (ictx p)) in
  if (Qt.length message <? maxLength)
     && (if md_type_eq_dec algo POLARSSL_MD_NONE then true else false)
  then message
  else Hash_hash message algo.

(** checks if the size of hash is ok for encryption/decryption. *)
Definition checkSize (hash : QByteArray) (p : t) : bool :=
  let maxLength := int_of_size_t (pk_get_len (ictx p)) in
  maxLength >=? Qt.length hash.

(** *** Signature *)

Definition sign (message : QByteArray) (algorithm : md_type_t) : M QByteArray :=
  hash <- gets (prepare message algorithm) ;;
  let buffer := buffer0 in
  '(nRet, buffer, olen) <-
    do_pk_sign algorithm (constData hash) 0 buffer ;;
  if negb (nRet =? 0) then
    emit (qDebug "pk_sign() failed. error: -0x%X" [- nRet]) ;;
    ret QByteArray_null
  else
    ret (QByteArray_of buffer olen).

Definition verify (message signature : QByteArray) (algorithm : md_type_t) : M Z :=
  hash <- gets (prepare message algorithm) ;;
  do_pk_verify algorithm (constData hash) 0
               (constData signature) (Qt.length signature).

(** *** Cipher *)

Definition encrypt (hash : QByteArray) : M QByteArray :=
  ok <- gets (checkSize hash) ;;
  if negb ok then
    emit (qDebug "invalid hash size for encryption!" []) ;;
    ret QByteArray_null
  else
    let buffer := buffer0 in
    '(nRet, buffer, olen) <-
      do_pk_encrypt (constData hash) (Qt.length hash) buffer POLARSSL_MPI_MAX_SIZE ;;
    if negb (nRet =? 0) then
      emit (qDebug "pk_encrypt() failed. error: -0x%X" [- nRet]) ;;
      ret QByteArray_null
    else
      ret (QByteArray_of buffer olen).

Definition decrypt (hash : QByteArray) : M QByteArray :=
  ok <- gets (checkSize hash) ;;
  if negb ok then
    emit (qDebug "invalid hash size for decryption!" []) ;;
    ret QByteArray_null
  else
    let buffer := buffer0 in
    '(nRet, buffer, olen) <-
      do_pk_decrypt (constData hash) (Qt.length hash) buffer POLARSSL_MPI_MAX_SIZE ;;
    if negb (nRet =? 0) then
      emit (qDebug "pk_decrypt() failed. error: -0x%X" [- nRet]) ;;
      ret QByteArray_null
    else
      ret (QByteArray_of buffer olen).

End Methods.
End Pki.

(** ** A stand-in for the collaborators

    A small, executable [External] on which the methods can be run: one
    algorithm (RSA) in the registry, an initialisation that refuses a
    context already in use, a parser that accepts the keys whose
    first byte is the DER sequence tag [0x30] (the character 0), the key
    bytes as the modulus, and reversal of the input for the signature and
    cipher primitives.  It takes no part in the theorems, which hold for
    every [External]; the examples evaluate the methods on it. *)

Module Demo.

Definition rsa_info : pk_info_t :=
  {| type := POLARSSL_PK_RSA; name := "RSA" |}.

Definition context : Type := option (pk_info_t * list byte).

Definition bytes (s : string) : list byte := list_byte_of_string s.

Definition registry (ty : pk_type_t) : option pk_info_t :=
  match ty with
  | POLARSSL_PK_RSA => Some rsa_info
  | _ => None
  end.

Definition ERR_KEY_INVALID_FORMAT : Z := -11520.
Definition ERR_BAD_INPUT_DATA : Z := -11904.
Definition ERR_VERIFY_FAILED : Z := -17280.

Definition init_ctx (ctx : context) (info : pk_info_t) : Z * context :=
  match ctx with
  | None => (0, Some (info, []))
  | Some _ => (ERR_BAD_INPUT_DATA, ctx)
  end.

Definition parse (ctx : context) (key : list byte) : Z * context :=
  match ctx, key with
  | None, x30 :: _ => (0, Some (rsa_info, key))
  | None, _ => (ERR_KEY_INVALID_FORMAT, None)
  | Some _, _ => (ERR_BAD_INPUT_DATA, ctx)
  end.

Definition transform (ctx : context) (input : list byte) (rnd : nat)
  : Z * list byte * nat * context * nat :=
  match ctx with
  | Some _ => (0, rev input, List.length input, ctx, S rnd)
  | None => (ERR_BAD_INPUT_DATA, [], 0%nat, ctx, rnd)
  end.

Definition check (ctx : context) (hash sig : list byte) : Z * context :=
  match ctx with
  | Some _ =>
      if list_eq_dec byte_eq_dec sig (rev hash) then (0, ctx)
      else (ERR_VERIFY_FAILED, ctx)
  | None => (ERR_BAD_INPUT_DATA, ctx)
  end.

Definition digest (message : QByteArray) (algo : md_type_t) : QByteArray :=
  match algo with
  | POLARSSL_MD_NONE => QByteArray_null
  | _ => QByteArray_bytes (firstn 2 (rev (constData message) ++ [x00; x00]))
  end.

Definition external : External := {|
  pk_key := list byte;
  ctr_drbg_context := nat;
  POLARSSL_MPI_MAX_SIZE := 1024;
  pk_info_from_type := registry;
  pk_init_ctx := init_ctx;
  get_size_func := fun _ key => 8 * Z.of_nat (List.length key);
  get_len_func := fun _ key => Z.of_nat (List.length key);
  can_do_func := fun info ty => if pk_type_eq_dec (type info) ty then 1 else 0;
  pk_parse_key := fun ctx key _ _ _ => parse ctx key;
  pk_parse_public_key := fun ctx key _ => parse ctx key;
  pk_sign := fun ctx _ hash _ rnd => transform ctx hash rnd;
  pk_verify := fun ctx _ hash _ sig _ => check ctx hash sig;
  pk_encrypt := fun ctx input _ _ rnd => transform ctx input rnd;
  pk_decrypt := fun ctx input _ _ rnd => transform ctx input rnd;
  Hash_hash := digest;
  QFile_open := fun path => String.eqb path "rsa.key";
  QFile_readAll := fun _ => QByteArray_bytes (bytes "0123")
|}.

(** A context constructed empty, one constructed for RSA, and one that
    holds a four-byte key; the storage of the first two holds the empty
    context when they are constructed. *)
Definition empty : @Pki.t external := @Pki.Pki external None 0%nat POLARSSL_PK_NONE.

Definition typed : @Pki.t external := @Pki.Pki external None 0%nat POLARSSL_PK_RSA.

Definition loaded : @Pki.t external :=
  Pki.self (@Pki.parseKey external (QByteArray_bytes (bytes "0123")) QByteArray_null empty).

End Demo.

(** A byte array written as a string literal. *)
Definition ba (s : string) : QByteArray := QByteArray_bytes (Demo.bytes s).

(** * Properties *)

(** Projections of the trace the statements below speak about. *)

(** The calls to the native encrypt and decrypt primitives. *)
Definition cipher_calls (tr : list Event) : list Event :=
  filter (fun e => is_call_pk_encrypt e || is_call_pk_decrypt e) tr.

(** The digest-length argument of each native sign or verify call. *)
Fixpoint hash_len_args (tr : list Event) : list Z :=
  match tr with
  | [] => []
  | call_pk_sign _ _ hash_len :: tr' => hash_len :: hash_len_args tr'
  | call_pk_verify _ _ hash_len _ _ :: tr' => hash_len :: hash_len_args tr'
  | _ :: tr' => hash_len_args tr'
  end.

(** The passphrase arguments (pointer and length) of each native private
    key parse. *)
Fixpoint passphrase_args (tr : list Event) : list (option (list byte) * Z) :=
  match tr with
  | [] => []
  | call_pk_parse_key _ _ pwd pwdlen :: tr' => (pwd, pwdlen) :: passphrase_args tr'
  | _ :: tr' => passphrase_args tr'
  end.

(** The number of lines handed to [qDebug]. *)
Definition debug_lines (tr : list Event) : nat :=
  List.length (filter is_qDebug tr).

(** ** Sequences of method calls

    A client of a [Pki] object: the public methods it may call, with their
    arguments, and the run of a list of calls on one object. *)
Inductive Call : Type :=
| Call_reset
| Call_parseKey (keyData password : QByteArray)
| Call_parsePublicKey (keyData : QByteArray)
| Call_parseKeyFrom (filePath : QString) (password : QByteArray)
| Call_parsePublicKeyFrom (filePath : QString)
| Call_sign (message : QByteArray) (algorithm : md_type_t)
| Call_verify (message signature : QByteArray) (algorithm : md_type_t)
| Call_encrypt (hash : QByteArray)
| Call_decrypt (hash : QByteArray).

Section Sessions.
Context `{External}.

(** Runs [m] and drops what it returns. *)
Definition discard {A} (m : Pki.M A) : Pki.M unit :=
  Pki.bind m (fun _ => Pki.ret tt).

Definition call (c : Call) : Pki.M unit :=
  match c with
  | Call_reset => Pki.reset
  | Call_parseKey keyData password => discard (Pki.parseKey keyData password)
  | Call_parsePublicKey keyData => discard (Pki.parsePublicKey keyData)
  | Call_parseKeyFrom filePath password => discard (Pki.parseKeyFrom filePath password)
  | Call_parsePublicKeyFrom filePath => discard (Pki.parsePublicKeyFrom filePath)
  | Call_sign message algorithm => discard (Pki.sign message algorithm)
  | Call_verify message signature algorithm =>
      discard (Pki.verify message signature algorithm)
  | Call_encrypt hash => discard (Pki.encrypt hash)
  | Call_decrypt hash => discard (Pki.decrypt hash)
  end.

Fixpoint calls (cs : list Call) : Pki.M unit :=
  match cs with
  | [] => Pki.ret tt
  | c :: cs' => Pki.bind (call c) (fun _ => calls cs')
  end.


End Sessions.

(** A second stand-in, as [Demo.external] but for the key length, which
    is [2 ^ 31] bytes for every key: one more than an [int] holds. *)
Module Wide.

Definition external : External := {|
  pk_key := list byte;
  ctr_drbg_context := nat;
  POLARSSL_MPI_MAX_SIZE := 1024;
  pk_info_from_type := Demo.registry;
  pk_init_ctx := Demo.init_ctx;
  get_size_func := fun _ _ => 2 ^ 34;
  get_len_func := fun _ _ => 2 ^ 31;
  can_do_func := fun info ty => if pk_type_eq_dec (type info) ty then 1 else 0;
  pk_parse_key := fun ctx key _ _ _ => Demo.parse ctx key;
  pk_parse_public_key := fun ctx key _ => Demo.parse ctx key;
  pk_sign := fun ctx _ hash _ rnd => Demo.transform ctx hash rnd;
  pk_verify := fun ctx _ hash _ sig _ => Demo.check ctx hash sig;
  pk_encrypt := fun ctx input _ _ rnd => Demo.transform ctx input rnd;
  pk_decrypt := fun ctx input _ _ rnd => Demo.transform ctx input rnd;
  Hash_hash := Demo.digest;
  QFile_open := fun path => String.eqb path "rsa.key";
  QFile_readAll := fun _ => QByteArray_bytes (Demo.bytes "0123")
|}.

Definition typed : @Pki.t external := @Pki.Pki external None 0%nat POLARSSL_PK_RSA.

End Wide.

(** ** Integers and buffers *)

Lemma int_of_size_t_id (z : Z) :
  0 <= z <= INT_MAX -> int_of_size_t z = z.
Proof.
  unfold int_of_size_t, INT_MAX. intros Hz.
  change (2 ^ 31) with 2147483648. change (2 ^ 32) with 4294967296.
  rewrite Z.mod_small; lia.
Qed.

Lemma length_nonneg (a : QByteArray) : 0 <= Qt.length a.
Proof. unfold Qt.length. lia. Qed.

Lemma length_null : Qt.length QByteArray_null = 0.
Proof. reflexivity. Qed.

Section Buffers.
Context `{External}.

Lemma length_buffer0 : List.length Pki.buffer0 = POLARSSL_MPI_MAX_SIZE.
Proof. unfold Pki.buffer0. apply repeat_length. Qed.

Lemma length_stored (buffer out : list byte) :
  List.length (Pki.stored buffer out) = List.length buffer.
Proof.
  unfold Pki.stored.
  rewrite length_firstn, length_app, length_skipn. lia.
Qed.

(** What fits in the buffer is read back unchanged. *)
Lemma firstn_stored (buffer out : list byte) :
  (List.length out <= List.length buffer)%nat ->
  firstn (List.length out) (Pki.stored buffer out) = out.
Proof.
  intros Hle. unfold Pki.stored.
  rewrite firstn_firstn, Nat.min_l by exact Hle.
  rewrite firstn_app, Nat.sub_diag, firstn_all. simpl. apply app_nil_r.
Qed.

Lemma length_QByteArray_of (data : list byte) (size : nat) :
  Qt.length (QByteArray_of data size) = Z.of_nat (Nat.min size (List.length data)).
Proof. unfold QByteArray_of, Qt.length. simpl. now rewrite length_firstn. Qed.

Lemma length_from_buffer_exact (out : list byte) (olen : nat) :
  (olen <= POLARSSL_MPI_MAX_SIZE)%nat ->
  Qt.length (QByteArray_of (Pki.stored Pki.buffer0 out) olen) = Z.of_nat olen.
Proof.
  intros Hle.
  rewrite length_QByteArray_of, length_stored, length_buffer0. lia.
Qed.

End Buffers.

(** ** Message preparation and the size guard *)

Section Preparation.
Context `{External}.

Lemma maxLength_capacity (p : Pki.t) :
  0 <= Pki.keySizeBytes p <= INT_MAX ->
  int_of_size_t (pk_get_len (Pki.ictx p)) = Pki.keySizeBytes p.
Proof. intros Hcap. unfold Pki.keySizeBytes in *. now apply int_of_size_t_id. Qed.

Lemma prepare_raw (message : QByteArray) (p : Pki.t) :
  Qt.length message < int_of_size_t (pk_get_len (Pki.ictx p)) ->
  Pki.prepare message POLARSSL_MD_NONE p = message.
Proof.
  intros Hlt. unfold Pki.prepare.
  apply Z.ltb_lt in Hlt. rewrite Hlt. reflexivity.
Qed.

Lemma prepare_hashed_algo (message : QByteArray) (algo : md_type_t) (p : Pki.t) :
  algo <> POLARSSL_MD_NONE ->
  Pki.prepare message algo p = Hash_hash message algo.
Proof.
  intros Hne. unfold Pki.prepare.
  destruct (md_type_eq_dec algo POLARSSL_MD_NONE) as [Heq | _].
  - contradiction.
  - now rewrite andb_false_r.
Qed.

Lemma prepare_hashed_long (message : QByteArray) (algo : md_type_t) (p : Pki.t) :
  int_of_size_t (pk_get_len (Pki.ictx p)) <= Qt.length message ->
  Pki.prepare message algo p = Hash_hash message algo.
Proof.
  intros Hge. unfold Pki.prepare.
  apply Z.ltb_ge in Hge. rewrite Hge. reflexivity.
Qed.

(** C3. For a key capacity that an [int] holds, [prepare] returns the
    message itself when the algorithm is none and the message is strictly
    shorter than the capacity, and [Hash::hash(message, algo)] in every
    other case; a message exactly as long as the capacity is hashed.  So,
    unless the hash of the message is the message, the message comes back
    unchanged if and only if the algorithm is none and the message is
    strictly shorter than the capacity. *)
Theorem prepare_raw_or_hashed (message : QByteArray) (algo : md_type_t) (p : Pki.t) :
  0 <= Pki.keySizeBytes p <= INT_MAX ->
  (algo = POLARSSL_MD_NONE /\ Qt.length message < Pki.keySizeBytes p ->
   Pki.prepare message algo p = message) /\
  (~ (algo = POLARSSL_MD_NONE /\ Qt.length message < Pki.keySizeBytes p) ->
   Pki.prepare message algo p = Hash_hash message algo) /\
  (Qt.length message = Pki.keySizeBytes p ->
   Pki.prepare message algo p = Hash_hash message algo) /\
  (Hash_hash message algo <> message ->
   (Pki.prepare message algo p = message <->
    algo = POLARSSL_MD_NONE /\ Qt.length message < Pki.keySizeBytes p)).
Proof.
  intros Hcap. pose proof (maxLength_capacity p Hcap) as Hmax.
  assert (Hother :
            ~ (algo = POLARSSL_MD_NONE /\ Qt.length message < Pki.keySizeBytes p) ->
            Pki.prepare message algo p = Hash_hash message algo).
  { intros Hnot.
    destruct (md_type_eq_dec algo POLARSSL_MD_NONE) as [-> | Hne].
    - apply prepare_hashed_long. rewrite Hmax.
      destruct (Z.lt_ge_cases (Qt.length message) (Pki.keySizeBytes p)) as [Hlt | Hge].
      + exfalso. apply Hnot. now split.
      + exact Hge.
    - now apply prepare_hashed_algo. }
  split; [| split; [| split]].
  - intros [-> Hlt]. apply prepare_raw. lia.
  - exact Hother.
  - intros Heq. apply prepare_hashed_long. lia.
  - intros Hdiffer. split.
    + intros Hsame.
      destruct (md_type_eq_dec algo POLARSSL_MD_NONE) as [Halgo | Halgo];
        destruct (Z.lt_ge_cases (Qt.length message) (Pki.keySizeBytes p)) as [Hlt | Hge];
        try (split; assumption);
        exfalso; apply Hdiffer; rewrite <- Hother; try exact Hsame;
        intros [Ha Hl]; (contradiction || lia).
    + intros [-> Hlt]. apply prepare_raw. lia.
Qed.

Lemma checkSize_true_iff (hash : QByteArray) (p : Pki.t) :
  Pki.checkSize hash p = true <->
  int_of_size_t (pk_get_len (Pki.ictx p)) >= Qt.length hash.
Proof. unfold Pki.checkSize. rewrite Z.geb_le. lia. Qed.

Lemma encrypt_rejected (hash : QByteArray) (p : Pki.t) :
  Pki.checkSize hash p = false ->
  Pki.encrypt hash p =
  {| Pki.value := QByteArray_null; Pki.self := p;
     Pki.events := [qDebug "invalid hash size for encryption!" []] |}.
Proof.
  intros Hno. unfold Pki.encrypt, Pki.bind, Pki.gets. simpl.
  rewrite Hno. reflexivity.
Qed.

Lemma decrypt_rejected (hash : QByteArray) (p : Pki.t) :
  Pki.checkSize hash p = false ->
  Pki.decrypt hash p =
  {| Pki.value := QByteArray_null; Pki.self := p;
     Pki.events := [qDebug "invalid hash size for decryption!" []] |}.
Proof.
  intros Hno. unfold Pki.decrypt, Pki.bind, Pki.gets. simpl.
  rewrite Hno. reflexivity.
Qed.

(** Past the guard, [encrypt] hands the data, its length and the size of
    the buffer to the primitive, and answers by the status. *)
Lemma encrypt_accepted (hash : QByteArray) (p : Pki.t)
      (nRet : Z) (out : list byte) (olen : nat) ctx' rnd' :
  Pki.checkSize hash p = true ->
  pk_encrypt (Pki.ictx p) (constData hash) (Qt.length hash)
             POLARSSL_MPI_MAX_SIZE (Pki.irandom p) = (nRet, out, olen, ctx', rnd') ->
  Pki.encrypt hash p =
  {| Pki.value := if nRet =? 0
                  then QByteArray_of (Pki.stored Pki.buffer0 out) olen
                  else QByteArray_null;
     Pki.self := {| Pki.irandom := rnd'; Pki.itype := Pki.itype p; Pki.ictx := ctx' |};
     Pki.events :=
       call_pk_encrypt (constData hash) (Qt.length hash) POLARSSL_MPI_MAX_SIZE
       :: if nRet =? 0 then []
          else [qDebug "pk_encrypt() failed. error: -0x%X" [- nRet]] |}.
Proof.
  intros Hok Hnative.
  unfold Pki.encrypt, Pki.bind, Pki.gets, Pki.do_pk_encrypt. simpl.
  rewrite Hok. simpl. rewrite Hnative. simpl.
  destruct (nRet =? 0); reflexivity.
Qed.

Lemma decrypt_accepted (hash : QByteArray) (p : Pki.t)
      (nRet : Z) (out : list byte) (olen : nat) ctx' rnd' :
  Pki.checkSize hash p = true ->
  pk_decrypt (Pki.ictx p) (constData hash) (Qt.length hash)
             POLARSSL_MPI_MAX_SIZE (Pki.irandom p) = (nRet, out, olen, ctx', rnd') ->
  Pki.decrypt hash p =
  {| Pki.value := if nRet =? 0
                  then QByteArray_of (Pki.stored Pki.buffer0 out) olen
                  else QByteArray_null;
     Pki.self := {| Pki.irandom := rnd'; Pki.itype := Pki.itype p; Pki.ictx := ctx' |};
     Pki.events :=
       call_pk_decrypt (constData hash) (Qt.length hash) POLARSSL_MPI_MAX_SIZE
       :: if nRet =? 0 then []
          else [qDebug "pk_decrypt() failed. error: -0x%X" [- nRet]] |}.
Proof.
  intros Hok Hnative.
  unfold Pki.decrypt, Pki.bind, Pki.gets, Pki.do_pk_decrypt. simpl.
  rewrite Hok. simpl. rewrite Hnative. simpl.
  destruct (nRet =? 0); reflexivity.
Qed.

End Preparation.

(** ** The cipher engine *)

Section Cipher.
Context `{External}.

Lemma constData_empty (a : QByteArray) : Qt.length a = 0 -> constData a = [].
Proof.
  unfold Qt.length. intros Hlen.
  destruct (constData a) as [| b bs]; [reflexivity | simpl in Hlen; lia].
Qed.

(** C4. [checkSize] accepts a buffer exactly when the key capacity (one
    that an [int] holds) is at least its length.  When it refuses,
    [encrypt] and [decrypt] log the size error, return the null array and
    make no call to the native primitive.  When it accepts and the
    primitive succeeds, the result is the first [olen] bytes of the output
    buffer. *)
Theorem checkSize_guards_cipher (hash : QByteArray) (p : Pki.t) :
  (0 <= Pki.keySizeBytes p <= INT_MAX ->
   (Pki.checkSize hash p = true <-> Pki.keySizeBytes p >= Qt.length hash)) /\
  (Pki.checkSize hash p = false ->
   (Pki.value (Pki.encrypt hash p) = QByteArray_null /\
    Pki.events (Pki.encrypt hash p) = [qDebug "invalid hash size for encryption!" []] /\
    cipher_calls (Pki.events (Pki.encrypt hash p)) = []) /\
   (Pki.value (Pki.decrypt hash p) = QByteArray_null /\
    Pki.events (Pki.decrypt hash p) = [qDebug "invalid hash size for decryption!" []] /\
    cipher_calls (Pki.events (Pki.decrypt hash p)) = [])) /\
  (Pki.checkSize hash p = true ->
   (forall out olen ctx' rnd',
       pk_encrypt (Pki.ictx p) (constData hash) (Qt.length hash)
                  POLARSSL_MPI_MAX_SIZE (Pki.irandom p) = (0, out, olen, ctx', rnd') ->
       Pki.value (Pki.encrypt hash p)
       = QByteArray_bytes (firstn olen (Pki.stored Pki.buffer0 out))) /\
   (forall out olen ctx' rnd',
       pk_decrypt (Pki.ictx p) (constData hash) (Qt.length hash)
                  POLARSSL_MPI_MAX_SIZE (Pki.irandom p) = (0, out, olen, ctx', rnd') ->
       Pki.value (Pki.decrypt hash p)
       = QByteArray_bytes (firstn olen (Pki.stored Pki.buffer0 out)))).
Proof.
  split; [| split].
  - intros Hcap. rewrite checkSize_true_iff, (maxLength_capacity p Hcap). tauto.
  - intros Hno.
    rewrite (encrypt_rejected hash p Hno), (decrypt_rejected hash p Hno).
    simpl. repeat split.
  - intros Hok. split; intros out olen ctx' rnd' Hnative.
    + now rewrite (encrypt_accepted hash p 0 out olen ctx' rnd' Hok Hnative).
    + now rewrite (decrypt_accepted hash p 0 out olen ctx' rnd' Hok Hnative).
Qed.

(** C10. On an empty context the key capacity is 0: every non-empty input
    is stopped by the size guard of [encrypt] and [decrypt] (null result,
    the size line in the log and nothing else, the object untouched),
    while the empty input passes the guard and reaches the primitive. *)
Theorem empty_context_size_guard (hash : QByteArray) (p : Pki.t) :
  Pki.ictx p = pk_init ->
  Pki.keySizeBytes p = 0 /\
  (Qt.length hash > 0 ->
   Pki.encrypt hash p =
   {| Pki.value := QByteArray_null; Pki.self := p;
      Pki.events := [qDebug "invalid hash size for encryption!" []] |} /\
   Pki.decrypt hash p =
   {| Pki.value := QByteArray_null; Pki.self := p;
      Pki.events := [qDebug "invalid hash size for decryption!" []] |}) /\
  (Qt.length hash = 0 ->
   Pki.checkSize hash p = true /\
   cipher_calls (Pki.events (Pki.encrypt hash p))
   = [call_pk_encrypt [] 0 POLARSSL_MPI_MAX_SIZE] /\
   cipher_calls (Pki.events (Pki.decrypt hash p))
   = [call_pk_decrypt [] 0 POLARSSL_MPI_MAX_SIZE]).
Proof.
  intros Hempty.
  assert (Hmax : int_of_size_t (pk_get_len (Pki.ictx p)) = 0)
    by (rewrite Hempty; reflexivity).
  split; [| split].
  - unfold Pki.keySizeBytes. now rewrite Hempty.
  - intros Hpos.
    assert (Hno : Pki.checkSize hash p = false).
    { unfold Pki.checkSize. rewrite Hmax. rewrite Z.geb_leb. apply Z.leb_gt. lia. }
    split; [now apply encrypt_rejected | now apply decrypt_rejected].
  - intros Hzero.
    assert (Hok : Pki.checkSize hash p = true).
    { apply checkSize_true_iff. rewrite Hmax. lia. }
    split; [exact Hok |].
    split.
    + destruct (pk_encrypt (Pki.ictx p) (constData hash) (Qt.length hash)
                           POLARSSL_MPI_MAX_SIZE (Pki.irandom p))
        as [[[[nRet out] olen] ctx'] rnd'] eqn:Hnative.
      rewrite (encrypt_accepted hash p nRet out olen ctx' rnd' Hok Hnative).
      rewrite (constData_empty hash Hzero), Hzero. simpl.
      destruct (nRet =? 0); reflexivity.
    + destruct (pk_decrypt (Pki.ictx p) (constData hash) (Qt.length hash)
                           POLARSSL_MPI_MAX_SIZE (Pki.irandom p))
        as [[[[nRet out] olen] ctx'] rnd'] eqn:Hnative.
      rewrite (decrypt_accepted hash p nRet out olen ctx' rnd' Hok Hnative).
      rewrite (constData_empty hash Hzero), Hzero. simpl.
      destruct (nRet =? 0); reflexivity.
Qed.

End Cipher.

(** ** The signature engine *)

Section Signature.
Context `{External}.

(** [sign] passes the prepared message to the primitive and answers by
    its status. *)
Lemma sign_unfold (message : QByteArray) (algorithm : md_type_t) (p : Pki.t)
      (nRet : Z) (out : list byte) (olen : nat) ctx' rnd' :
  pk_sign (Pki.ictx p) algorithm (constData (Pki.prepare message algorithm p)) 0
          (Pki.irandom p) = (nRet, out, olen, ctx', rnd') ->
  Pki.sign message algorithm p =
  {| Pki.value := if nRet =? 0
                  then QByteArray_of (Pki.stored Pki.buffer0 out) olen
                  else QByteArray_null;
     Pki.self := {| Pki.irandom := rnd'; Pki.itype := Pki.itype p; Pki.ictx := ctx' |};
     Pki.events :=
       call_pk_sign algorithm (constData (Pki.prepare message algorithm p)) 0
       :: if nRet =? 0 then []
          else [qDebug "pk_sign() failed. error: -0x%X" [- nRet]] |}.
Proof.
  intros Hnative.
  unfold Pki.sign, Pki.bind, Pki.gets, Pki.do_pk_sign. simpl.
  rewrite Hnative. simpl.
  destruct (nRet =? 0); reflexivity.
Qed.

Lemma verify_unfold (message signature : QByteArray) (algorithm : md_type_t) (p : Pki.t) :
  Pki.verify message signature algorithm p =
  let hash := constData (Pki.prepare message algorithm p) in
  let r := pk_verify (Pki.ictx p) algorithm hash 0
                     (constData signature) (Qt.length signature) in
  {| Pki.value := fst r;
     Pki.self := {| Pki.irandom := Pki.irandom p; Pki.itype := Pki.itype p;
                    Pki.ictx := snd r |};
     Pki.events :=
       [call_pk_verify algorithm hash 0 (constData signature) (Qt.length signature)] |}.
Proof.
  unfold Pki.verify, Pki.bind, Pki.gets, Pki.do_pk_verify. simpl.
  destruct (pk_verify _ _ _ _ _ _) as [nRet ctx']. reflexivity.
Qed.

(** C6. Whatever the primitive answers to the call [sign] makes: on a
    non-zero status [sign] returns the null array and logs the negated
    status; on status 0 it returns the first [olen] bytes of the output
    buffer.  When the produced length [olen] is within the buffer, the
    result is [olen] bytes long, so at most [POLARSSL_MPI_MAX_SIZE], and
    it is exactly the bytes the primitive produced. *)
Theorem sign_result (message : QByteArray) (algorithm : md_type_t) (p : Pki.t)
        (nRet : Z) (out : list byte) (olen : nat) ctx' rnd' :
  pk_sign (Pki.ictx p) algorithm (constData (Pki.prepare message algorithm p)) 0
          (Pki.irandom p) = (nRet, out, olen, ctx', rnd') ->
  (nRet <> 0 ->
   Pki.value (Pki.sign message algorithm p) = QByteArray_null /\
   Qt.length (Pki.value (Pki.sign message algorithm p)) = 0 /\
   filter is_qDebug (Pki.events (Pki.sign message algorithm p))
   = [qDebug "pk_sign() failed. error: -0x%X" [- nRet]]) /\
  (nRet = 0 ->
   Pki.value (Pki.sign message algorithm p)
   = QByteArray_bytes (firstn olen (Pki.stored Pki.buffer0 out)) /\
   ((olen <= POLARSSL_MPI_MAX_SIZE)%nat ->
    Qt.length (Pki.value (Pki.sign message algorithm p)) = Z.of_nat olen /\
    Qt.length (Pki.value (Pki.sign message algorithm p))
    <= Z.of_nat POLARSSL_MPI_MAX_SIZE) /\
   (List.length out = olen -> (olen <= POLARSSL_MPI_MAX_SIZE)%nat ->
    Pki.value (Pki.sign message algorithm p) = QByteArray_bytes out)).
Proof.
  intros Hnative.
  rewrite (sign_unfold message algorithm p nRet out olen ctx' rnd' Hnative).
  simpl. split.
  - intros Hfail. apply Z.eqb_neq in Hfail. rewrite Hfail. simpl. repeat split.
  - intros ->. simpl. split; [reflexivity |]. split.
    + intros Hfit. rewrite (length_from_buffer_exact out olen Hfit). lia.
    + intros Hlen Hfit. unfold QByteArray_of. subst olen.
      rewrite firstn_stored; [reflexivity |].
      now rewrite length_buffer0.
Qed.

(** C7. The value [verify] returns is the status of the native
    verification itself, for every status: success (0), a signature that
    does not match and an operation error stay as distinct as the
    primitive makes them. *)
Theorem verify_returns_native_status
        (message signature : QByteArray) (algorithm : md_type_t) (p : Pki.t) :
  Pki.value (Pki.verify message signature algorithm p)
  = fst (pk_verify (Pki.ictx p) algorithm
                   (constData (Pki.prepare message algorithm p)) 0
                   (constData signature) (Qt.length signature)) /\
  forall (message' signature' : QByteArray) (algorithm' : md_type_t) (p' : Pki.t),
    fst (pk_verify (Pki.ictx p') algorithm'
                   (constData (Pki.prepare message' algorithm' p')) 0
                   (constData signature') (Qt.length signature'))
    <> fst (pk_verify (Pki.ictx p) algorithm
                      (constData (Pki.prepare message algorithm p)) 0
                      (constData signature) (Qt.length signature)) ->
    Pki.value (Pki.verify message' signature' algorithm' p')
    <> Pki.value (Pki.verify message signature algorithm p).
Proof.
  split.
  - rewrite verify_unfold. reflexivity.
  - intros message' signature' algorithm' p' Hdiffer.
    rewrite !verify_unfold. exact Hdiffer.
Qed.

(** C9. [sign] and [verify] each make one call to their primitive, on the
    prepared message, and the digest length they pass is 0 for every
    message and every algorithm. *)
Theorem hash_len_is_zero
        (message signature : QByteArray) (algorithm : md_type_t) (p : Pki.t) :
  hash_len_args (Pki.events (Pki.sign message algorithm p)) = [0] /\
  hash_len_args (Pki.events (Pki.verify message signature algorithm p)) = [0] /\
  (exists log,
      Pki.events (Pki.sign message algorithm p)
      = call_pk_sign algorithm (constData (Pki.prepare message algorithm p)) 0 :: log) /\
  Pki.events (Pki.verify message signature algorithm p)
  = [call_pk_verify algorithm (constData (Pki.prepare message algorithm p)) 0
                    (constData signature) (Qt.length signature)].
Proof.
  destruct (pk_sign (Pki.ictx p) algorithm
                    (constData (Pki.prepare message algorithm p)) 0 (Pki.irandom p))
    as [[[[nRet out] olen] ctx'] rnd'] eqn:Hnative.
  rewrite (sign_unfold message algorithm p nRet out olen ctx' rnd' Hnative).
  rewrite verify_unfold. simpl.
  repeat split.
  - destruct (nRet =? 0); reflexivity.
  - eexists. reflexivity.
Qed.

End Signature.

(** ** The key context and the key loader *)

Section Loader.
Context `{External}.

(** [parseKey] frees the context, runs the parser on the freed context
    with the key, its length, the passphrase pointer and the passphrase
    length, and logs a non-zero status. *)
Lemma parseKey_unfold (keyData password : QByteArray) (p : Pki.t) :
  Pki.parseKey keyData password p =
  let pwd := if Qt.length password >? 0 then Some (constData password) else None in
  let r := pk_parse_key pk_init (constData keyData) (Qt.length keyData)
                        pwd (Qt.length password) in
  {| Pki.value := fst r;
     Pki.self := {| Pki.irandom := Pki.irandom p; Pki.itype := Pki.itype p;
                    Pki.ictx := snd r |};
     Pki.events :=
       call_pk_parse_key (constData keyData) (Qt.length keyData)
                         pwd (Qt.length password)
       :: if fst r =? 0 then []
          else [qDebug "pk_parse_key() failed. error: -0x%X" [- fst r]] |}.
Proof.
  unfold Pki.parseKey, Pki.bind, Pki.reset, Pki.do_pk_parse_key, Pki.when. simpl.
  unfold pk_free, pk_init.
  destruct (pk_parse_key None _ _ _ _) as [nRet ctx']. simpl.
  destruct (nRet =? 0); reflexivity.
Qed.

Lemma parsePublicKey_unfold (keyData : QByteArray) (p : Pki.t) :
  Pki.parsePublicKey keyData p =
  let r := pk_parse_public_key pk_init (constData keyData) (Qt.length keyData) in
  {| Pki.value := fst r;
     Pki.self := {| Pki.irandom := Pki.irandom p; Pki.itype := Pki.itype p;
                    Pki.ictx := snd r |};
     Pki.events :=
       call_pk_parse_public_key (constData keyData) (Qt.length keyData)
       :: if fst r =? 0 then []
          else [qDebug "pk_parse_public_key() failed. error: -0x%X" [- fst r]] |}.
Proof.
  unfold Pki.parsePublicKey, Pki.bind, Pki.reset, Pki.do_pk_parse_public_key, Pki.when.
  simpl. unfold pk_free, pk_init.
  destruct (pk_parse_public_key None _ _) as [nRet ctx']. simpl.
  destruct (nRet =? 0); reflexivity.
Qed.

(** Only the constructor writes [itype]. *)
Lemma reset_itype (p : Pki.t) : Pki.itype (Pki.self (Pki.reset p)) = Pki.itype p.
Proof. reflexivity. Qed.

Lemma parseKey_itype (keyData password : QByteArray) (p : Pki.t) :
  Pki.itype (Pki.self (Pki.parseKey keyData password p)) = Pki.itype p.
Proof. rewrite parseKey_unfold. reflexivity. Qed.

Lemma parsePublicKey_itype (keyData : QByteArray) (p : Pki.t) :
  Pki.itype (Pki.self (Pki.parsePublicKey keyData p)) = Pki.itype p.
Proof. rewrite parsePublicKey_unfold. reflexivity. Qed.

(** So [isValid] answers after a reset or a parse what it answered
    before, whatever became of the native context. *)
Lemma reset_isValid (p : Pki.t) :
  Pki.isValid (Pki.self (Pki.reset p)) = Pki.isValid p.
Proof. reflexivity. Qed.

Lemma parseKey_isValid (keyData password : QByteArray) (p : Pki.t) :
  Pki.isValid (Pki.self (Pki.parseKey keyData password p)) = Pki.isValid p.
Proof. unfold Pki.isValid. now rewrite parseKey_itype. Qed.

Lemma parsePublicKey_isValid (keyData : QByteArray) (p : Pki.t) :
  Pki.isValid (Pki.self (Pki.parsePublicKey keyData p)) = Pki.isValid p.
Proof. unfold Pki.isValid. now rewrite parsePublicKey_itype. Qed.

(** The native side of [reset]: the context is empty afterwards, nothing
    is logged, and a second reset changes nothing. *)
Lemma reset_empties_context (p : Pki.t) :
  Pki.ictx (Pki.self (Pki.reset p)) = pk_init /\
  Pki.type (Pki.self (Pki.reset p)) = POLARSSL_PK_NONE /\
  Pki.keySizeBytes (Pki.self (Pki.reset p)) = 0 /\
  Pki.events (Pki.reset p) = [].
Proof. repeat split. Qed.

Lemma reset_idempotent (p : Pki.t) :
  Pki.reset (Pki.self (Pki.reset p)) = Pki.reset p.
Proof. reflexivity. Qed.

Lemma reset_empty_noop (p : Pki.t) :
  Pki.ictx p = pk_init -> Pki.self (Pki.reset p) = p.
Proof. destruct p as [rnd ty ctx]. simpl. intros ->. reflexivity. Qed.

(** C5. When the file cannot be opened, the file variants are the byte
    variants on an empty buffer: same result, same object, same trace.
    The parser is called (on a key of length 0) and its status is what
    is returned; when the parser rejects the empty key, that status is
    non-zero and the parse failure is logged. *)
Theorem parse_from_unreadable_file
        (filePath : QString) (password : QByteArray) (p : Pki.t) :
  QFile_open filePath = false ->
  let pwd := if Qt.length password >? 0 then Some (constData password) else None in
  (Pki.parseKeyFrom filePath password p = Pki.parseKey QByteArray_null password p /\
   Pki.parseKeyFrom filePath password p = Pki.parseKey (QByteArray_bytes []) password p) /\
  (Pki.parsePublicKeyFrom filePath p = Pki.parsePublicKey QByteArray_null p /\
   Pki.parsePublicKeyFrom filePath p = Pki.parsePublicKey (QByteArray_bytes []) p) /\
  (Pki.value (Pki.parseKeyFrom filePath password p)
   = fst (pk_parse_key pk_init [] 0 pwd (Qt.length password)) /\
   hd_error (Pki.events (Pki.parseKeyFrom filePath password p))
   = Some (call_pk_parse_key [] 0 pwd (Qt.length password))) /\
  (Pki.value (Pki.parsePublicKeyFrom filePath p)
   = fst (pk_parse_public_key pk_init [] 0) /\
   hd_error (Pki.events (Pki.parsePublicKeyFrom filePath p))
   = Some (call_pk_parse_public_key [] 0)) /\
  (fst (pk_parse_key pk_init [] 0 pwd (Qt.length password)) <> 0 ->
   Pki.value (Pki.parseKeyFrom filePath password p) <> 0 /\
   filter is_qDebug (Pki.events (Pki.parseKeyFrom filePath password p))
   = [qDebug "pk_parse_key() failed. error: -0x%X"
             [- Pki.value (Pki.parseKeyFrom filePath password p)]]) /\
  (fst (pk_parse_public_key pk_init [] 0) <> 0 ->
   Pki.value (Pki.parsePublicKeyFrom filePath p) <> 0 /\
   filter is_qDebug (Pki.events (Pki.parsePublicKeyFrom filePath p))
   = [qDebug "pk_parse_public_key() failed. error: -0x%X"
             [- Pki.value (Pki.parsePublicKeyFrom filePath p)]]).
Proof.
  intros Hopen pwd.
  assert (Hpriv : Pki.parseKeyFrom filePath password p
                  = Pki.parseKey QByteArray_null password p).
  { unfold Pki.parseKeyFrom. now rewrite Hopen. }
  assert (Hpub : Pki.parsePublicKeyFrom filePath p
                 = Pki.parsePublicKey QByteArray_null p).
  { unfold Pki.parsePublicKeyFrom. now rewrite Hopen. }
  rewrite Hpriv, Hpub.
  rewrite !parseKey_unfold, !parsePublicKey_unfold. simpl. fold pwd.
  split; [split; reflexivity |].
  split; [split; reflexivity |].
  split; [split; reflexivity |].
  split; [split; reflexivity |].
  split; intros Hrejected.
  - split; [exact Hrejected |].
    change (Qt.length QByteArray_null) with 0.
    apply Z.eqb_neq in Hrejected. rewrite Hrejected. reflexivity.
  - split; [exact Hrejected |].
    change (Qt.length QByteArray_null) with 0.
    apply Z.eqb_neq in Hrejected. rewrite Hrejected. reflexivity.
Qed.

(** C8, as the code has it.  The passphrase arguments of the native parse
    are a null pointer and length 0 for every passphrase of length 0, the
    null array (no passphrase given) and the empty array alike; a longer
    passphrase is passed as its bytes and its length. *)
Theorem passphrase_at_native_boundary (keyData password : QByteArray) (p : Pki.t) :
  (Qt.length password = 0 ->
   passphrase_args (Pki.events (Pki.parseKey keyData password p)) = [(None, 0)]) /\
  (Qt.length password > 0 ->
   passphrase_args (Pki.events (Pki.parseKey keyData password p))
   = [(Some (constData password), Qt.length password)]) /\
  passphrase_args (Pki.events (Pki.parseKey keyData QByteArray_null p))
  = passphrase_args (Pki.events (Pki.parseKey keyData (QByteArray_bytes []) p)).
Proof.
  rewrite !parseKey_unfold. simpl.
  split; [| split].
  - intros Hzero. rewrite Hzero. simpl.
    destruct (fst _ =? 0); reflexivity.
  - intros Hpos.
    assert (Hgt : (Qt.length password >? 0) = true) by (apply Z.gtb_lt; lia).
    rewrite Hgt.
    destruct (fst _ =? 0); reflexivity.
  - destruct (fst _ =? 0); reflexivity.
Qed.

End Loader.

(** * The methods on concrete inputs

    Runs on the stand-in [Demo.external]: a context constructed empty
    ([Demo.empty]), one constructed for RSA ([Demo.typed]) and one that
    holds the four-byte key 0123 ([Demo.loaded]). *)

(** C1. A parse that succeeds on a context constructed empty returns 0 and
    leaves an RSA key of four bytes in the native context, yet [isValid]
    answers false; a parse that fails on a context constructed for RSA
    returns an error and leaves the native context empty, yet [isValid]
    answers true.  The public-key parse behaves alike. *)
Theorem isValid_ignores_parse :
  let ok := @Pki.parseKey Demo.external (ba "0123") QByteArray_null Demo.empty in
  let ko := @Pki.parseKey Demo.external (ba "junk") QByteArray_null Demo.typed in
  let pub := @Pki.parsePublicKey Demo.external (ba "0123") Demo.empty in
  (Pki.isValid Demo.empty = false /\
   Pki.value ok = 0 /\
   Pki.type (Pki.self ok) = POLARSSL_PK_RSA /\
   Pki.keySizeBytes (Pki.self ok) = 4 /\
   Pki.isValid (Pki.self ok) = false) /\
  (Pki.value ko = Demo.ERR_KEY_INVALID_FORMAT /\
   Pki.type (Pki.self ko) = POLARSSL_PK_NONE /\
   Pki.isValid (Pki.self ko) = true) /\
  (Pki.value pub = 0 /\
   Pki.type (Pki.self pub) = POLARSSL_PK_RSA /\
   Pki.isValid (Pki.self pub) = false).
Proof. vm_compute. repeat split. Qed.

(** C2. After [reset] on a context constructed for RSA the native context
    is empty (type none, key size 0) and nothing was logged, yet [isValid]
    still answers true; a second [reset] changes nothing. *)
Theorem isValid_ignores_reset :
  let r := @Pki.reset Demo.external Demo.typed in
  Pki.isValid Demo.typed = true /\
  Pki.type (Pki.self r) = POLARSSL_PK_NONE /\
  Pki.keySizeBytes (Pki.self r) = 0 /\
  Pki.events r = [] /\
  Pki.isValid (Pki.self r) = true /\
  Pki.reset (Pki.self r) = r.
Proof. vm_compute. repeat split. Qed.

(** Three statuses of the native verification, as [verify] returns them:
    a matching signature, a signature that does not match, and a context
    with no key. *)
Example verify_three_outcomes :
  Pki.value (@Pki.verify Demo.external (ba "abc") (ba "cba") POLARSSL_MD_NONE Demo.loaded)
  = 0 /\
  Pki.value (@Pki.verify Demo.external (ba "abc") (ba "cbb") POLARSSL_MD_NONE Demo.loaded)
  = Demo.ERR_VERIFY_FAILED /\
  Pki.value (@Pki.verify Demo.external (ba "abc") (ba "cba") POLARSSL_MD_NONE Demo.empty)
  = Demo.ERR_BAD_INPUT_DATA.
Proof. vm_compute. repeat split. Qed.

(** C3 on the four-byte key: three bytes go through unchanged, four bytes
    (the boundary) and any input under SHA-256 are hashed. *)
Lemma prepare_raw_or_hashed_witness :
  0 <= Pki.keySizeBytes Demo.loaded <= INT_MAX /\
  @Pki.prepare Demo.external (ba "abc") POLARSSL_MD_NONE Demo.loaded = ba "abc" /\
  @Pki.prepare Demo.external (ba "abcd") POLARSSL_MD_NONE Demo.loaded
  = @Hash_hash Demo.external (ba "abcd") POLARSSL_MD_NONE /\
  @Pki.prepare Demo.external (ba "ab") POLARSSL_MD_SHA256 Demo.loaded
  = @Hash_hash Demo.external (ba "ab") POLARSSL_MD_SHA256.
Proof.
  assert (Hcap : 0 <= Pki.keySizeBytes Demo.loaded <= INT_MAX) by (vm_compute; split; discriminate).
  split; [exact Hcap |].
  split; [| split].
  - destruct (@prepare_raw_or_hashed Demo.external (ba "abc") POLARSSL_MD_NONE
                                     Demo.loaded Hcap) as [Hraw _].
    apply Hraw. split; [reflexivity | vm_compute; reflexivity].
  - destruct (@prepare_raw_or_hashed Demo.external (ba "abcd") POLARSSL_MD_NONE
                                     Demo.loaded Hcap) as [_ [_ [Hboundary _]]].
    apply Hboundary. vm_compute; reflexivity.
  - destruct (@prepare_raw_or_hashed Demo.external (ba "ab") POLARSSL_MD_SHA256
                                     Demo.loaded Hcap) as [_ [Hother _]].
    apply Hother. intros [Halgo _]. discriminate Halgo.
Defined.

(** C4 on the four-byte key: four bytes pass the guard and come back
    reversed by the stand-in cipher; five bytes are refused before any
    call to it. *)
Lemma checkSize_guards_cipher_witness :
  0 <= Pki.keySizeBytes Demo.loaded <= INT_MAX /\
  @Pki.checkSize Demo.external (ba "abcd") Demo.loaded = true /\
  Pki.value (@Pki.encrypt Demo.external (ba "abcd") Demo.loaded) = ba "dcba" /\
  Pki.value (@Pki.decrypt Demo.external (ba "dcba") Demo.loaded) = ba "abcd" /\
  @Pki.checkSize Demo.external (ba "abcde") Demo.loaded = false /\
  Pki.value (@Pki.encrypt Demo.external (ba "abcde") Demo.loaded) = QByteArray_null /\
  cipher_calls (Pki.events (@Pki.encrypt Demo.external (ba "abcde") Demo.loaded)) = [] /\
  Pki.value (@Pki.decrypt Demo.external (ba "abcde") Demo.loaded) = QByteArray_null /\
  cipher_calls (Pki.events (@Pki.decrypt Demo.external (ba "abcde") Demo.loaded)) = [].
Proof.
  assert (Hcap : 0 <= Pki.keySizeBytes Demo.loaded <= INT_MAX)
    by (vm_compute; split; discriminate).
  destruct (@checkSize_guards_cipher Demo.external (ba "abcd") Demo.loaded)
    as [Hiff4 [_ Hpass4]].
  destruct (@checkSize_guards_cipher Demo.external (ba "dcba") Demo.loaded)
    as [_ [_ Hpass4']].
  destruct (@checkSize_guards_cipher Demo.external (ba "abcde") Demo.loaded)
    as [Hiff5 [Hstop5 _]].
  assert (Hok : @Pki.checkSize Demo.external (ba "abcd") Demo.loaded = true).
  { apply (Hiff4 Hcap). vm_compute. discriminate. }
  assert (Hno : @Pki.checkSize Demo.external (ba "abcde") Demo.loaded = false).
  { apply not_true_is_false. intros Hc.
    apply (Hiff5 Hcap) in Hc. vm_compute in Hc. apply Hc. reflexivity. }
  destruct (Hstop5 Hno) as [[Henc [_ Hencs]] [Hdec [_ Hdecs]]].
  split; [exact Hcap |].
  split; [exact Hok |].
  split.
  { destruct (Hpass4 Hok) as [Henc4 _].
    rewrite (Henc4 (Demo.bytes "dcba") 4%nat (Pki.ictx Demo.loaded) 1%nat eq_refl).
    vm_compute. reflexivity. }
  split.
  { destruct (Hpass4' eq_refl) as [_ Hdec4].
    rewrite (Hdec4 (Demo.bytes "abcd") 4%nat (Pki.ictx Demo.loaded) 1%nat eq_refl).
    vm_compute. reflexivity. }
  repeat split; assumption.
Defined.

(** C10 on the context constructed empty: one byte is refused by the
    guard, the null array reaches the primitive. *)
Lemma empty_context_size_guard_witness :
  Pki.ictx Demo.empty = @pk_init Demo.external /\
  Pki.keySizeBytes Demo.empty = 0 /\
  @Pki.encrypt Demo.external (ba "a") Demo.empty =
  {| Pki.value := QByteArray_null; Pki.self := Demo.empty;
     Pki.events := [qDebug "invalid hash size for encryption!" []] |} /\
  @Pki.decrypt Demo.external (ba "a") Demo.empty =
  {| Pki.value := QByteArray_null; Pki.self := Demo.empty;
     Pki.events := [qDebug "invalid hash size for decryption!" []] |} /\
  @Pki.checkSize Demo.external QByteArray_null Demo.empty = true /\
  cipher_calls (Pki.events (@Pki.encrypt Demo.external QByteArray_null Demo.empty))
  = [call_pk_encrypt [] 0 1024].
Proof.
  destruct (@empty_context_size_guard Demo.external (ba "a") Demo.empty eq_refl)
    as [Hcap [Hstop _]].
  destruct (@empty_context_size_guard Demo.external QByteArray_null Demo.empty eq_refl)
    as [_ [_ Hpass]].
  destruct Hstop as [Henc Hdec]; [vm_compute; reflexivity |].
  destruct Hpass as [Hok [Hcall _]]; [reflexivity |].
  repeat split; assumption.
Defined.

(** C6 on the four-byte key (the stand-in signature succeeds) and on the
    empty context (it fails). *)
Lemma sign_result_witness :
  Pki.value (@Pki.sign Demo.external (ba "abc") POLARSSL_MD_NONE Demo.loaded) = ba "cba" /\
  Qt.length (Pki.value (@Pki.sign Demo.external (ba "abc") POLARSSL_MD_NONE Demo.loaded))
  = 3 /\
  Pki.value (@Pki.sign Demo.external (ba "abc") POLARSSL_MD_SHA1 Demo.empty)
  = QByteArray_null /\
  filter is_qDebug
         (Pki.events (@Pki.sign Demo.external (ba "abc") POLARSSL_MD_SHA1 Demo.empty))
  = [qDebug "pk_sign() failed. error: -0x%X" [- Demo.ERR_BAD_INPUT_DATA]].
Proof.
  destruct (@sign_result Demo.external (ba "abc") POLARSSL_MD_NONE Demo.loaded
                         0 (Demo.bytes "cba") 3%nat (Pki.ictx Demo.loaded) 1%nat eq_refl)
    as [_ Hok].
  destruct (@sign_result Demo.external (ba "abc") POLARSSL_MD_SHA1 Demo.empty
                         Demo.ERR_BAD_INPUT_DATA [] 0%nat None 0%nat eq_refl)
    as [Hko _].
  destruct (Hok eq_refl) as [_ [Hbound Hexact]].
  destruct Hko as [Hnull [_ Hlog]]; [discriminate |].
  assert (Hfit : (3 <= @POLARSSL_MPI_MAX_SIZE Demo.external)%nat)
    by (apply Nat.leb_le; reflexivity).
  split; [apply Hexact; [reflexivity | exact Hfit] |].
  split; [exact (proj1 (Hbound Hfit)) |].
  split; assumption.
Defined.

(** C5 on a path the stand-in file system cannot open. *)
Lemma parse_from_unreadable_file_witness :
  @QFile_open Demo.external "missing.key"%string = false /\
  @Pki.parseKeyFrom Demo.external "missing.key"%string QByteArray_null Demo.empty
  = @Pki.parseKey Demo.external (QByteArray_bytes []) QByteArray_null Demo.empty /\
  @Pki.parsePublicKeyFrom Demo.external "missing.key"%string Demo.empty
  = @Pki.parsePublicKey Demo.external (QByteArray_bytes []) Demo.empty /\
  Pki.value (@Pki.parseKeyFrom Demo.external "missing.key"%string QByteArray_null Demo.empty) <> 0 /\
  Pki.value (@Pki.parsePublicKeyFrom Demo.external "missing.key"%string Demo.empty) <> 0.
Proof.
  pose proof (@parse_from_unreadable_file Demo.external "missing.key"%string
                                          QByteArray_null Demo.empty eq_refl) as Hthm.
  cbv zeta in Hthm.
  destruct Hthm as [[_ Hpriv] [[_ Hpub] [_ [_ [Hfail Hfailpub]]]]].
  split; [reflexivity |].
  split; [exact Hpriv |].
  split; [exact Hpub |].
  split.
  - apply Hfail. vm_compute. discriminate.
  - apply Hfailpub. vm_compute. discriminate.
Defined.

(** C8: at this input the passphrase arguments of the two calls are the
    same, although the two passphrases differ. *)
Lemma absent_and_empty_passphrase_same_arguments :
  QByteArray_null <> QByteArray_bytes [] /\
  passphrase_args
    (Pki.events (@Pki.parseKey Demo.external (ba "0123") QByteArray_null Demo.empty))
  = passphrase_args
      (Pki.events (@Pki.parseKey Demo.external (ba "0123") (QByteArray_bytes []) Demo.empty)).
Proof. split; [discriminate | vm_compute; reflexivity]. Qed.

(** C8 as the code has it, on no passphrase and on the passphrase pw. *)
Lemma passphrase_at_native_boundary_witness :
  Qt.length QByteArray_null = 0 /\
  passphrase_args
    (Pki.events (@Pki.parseKey Demo.external (ba "0123") QByteArray_null Demo.empty))
  = [(None, 0)] /\
  Qt.length (ba "pw") > 0 /\
  passphrase_args
    (Pki.events (@Pki.parseKey Demo.external (ba "0123") (ba "pw") Demo.empty))
  = [(Some (Demo.bytes "pw"), 2)].
Proof.
  destruct (@passphrase_at_native_boundary Demo.external (ba "0123") QByteArray_null
                                           Demo.empty) as [Hnone _].
  destruct (@passphrase_at_native_boundary Demo.external (ba "0123") (ba "pw")
                                           Demo.empty) as [_ [Hsome _]].
  split; [reflexivity |].
  split; [apply Hnone; reflexivity |].
  split; [reflexivity |].
  apply Hsome. reflexivity.
Defined.

(** C7 on the four-byte key: a matching signature gives 0, and a
    signature that does not match and a context with no key give two
    further values, all three distinct. *)
Lemma verify_returns_native_status_witness :
  Pki.value (@Pki.verify Demo.external (ba "abc") (ba "cba") POLARSSL_MD_NONE Demo.loaded)
  = 0 /\
  Pki.value (@Pki.verify Demo.external (ba "abc") (ba "cbb") POLARSSL_MD_NONE Demo.loaded)
  <> Pki.value (@Pki.verify Demo.external (ba "abc") (ba "cba") POLARSSL_MD_NONE Demo.loaded) /\
  Pki.value (@Pki.verify Demo.external (ba "abc") (ba "cba") POLARSSL_MD_NONE Demo.empty)
  <> Pki.value (@Pki.verify Demo.external (ba "abc") (ba "cba") POLARSSL_MD_NONE Demo.loaded) /\
  Pki.value (@Pki.verify Demo.external (ba "abc") (ba "cba") POLARSSL_MD_NONE Demo.empty)
  <> Pki.value (@Pki.verify Demo.external (ba "abc") (ba "cbb") POLARSSL_MD_NONE Demo.loaded).
Proof.
  destruct (@verify_returns_native_status Demo.external (ba "abc") (ba "cba")
                                          POLARSSL_MD_NONE Demo.loaded)
    as [Hok Hapart].
  destruct (@verify_returns_native_status Demo.external (ba "abc") (ba "cbb")
                                          POLARSSL_MD_NONE Demo.loaded)
    as [_ Hapart'].
  split; [rewrite Hok; reflexivity |].
  split; [apply Hapart; vm_compute; discriminate |].
  split; [apply Hapart; vm_compute; discriminate |].
  apply Hapart'. vm_compute. discriminate.
Defined.

(** * Further properties of the class *)

(** Unfolds a method down to the calls of the collaborators. *)
Ltac run_method :=
  unfold call, discard,
    Pki.parseKeyFrom, Pki.parsePublicKeyFrom, Pki.parseKey, Pki.parsePublicKey,
    Pki.sign, Pki.verify, Pki.encrypt, Pki.decrypt, Pki.reset,
    Pki.do_pk_parse_key, Pki.do_pk_parse_public_key, Pki.do_pk_sign,
    Pki.do_pk_verify, Pki.do_pk_encrypt, Pki.do_pk_decrypt,
    Pki.bind, Pki.gets, Pki.ret, Pki.emit, Pki.when;
  cbn [Pki.value Pki.self Pki.events Pki.irandom Pki.itype Pki.ictx].

(** Splits on what a collaborator answers and on the tests of a method. *)
Ltac split_cases :=
  repeat match goal with
         | |- context [let '(_, _) := ?x in _] => destruct x
         | |- context [if negb ?b then _ else _] => destruct b; cbn [negb]
         | |- context [if ?b then _ else _] => destruct b
         end;
  cbn [Pki.value Pki.self Pki.events Pki.irandom Pki.itype Pki.ictx negb app].

Section Lifetime.
Context `{External}.

Lemma call_itype (c : Call) (p : Pki.t) :
  Pki.itype (Pki.self (call c p)) = Pki.itype p.
Proof. destruct c; run_method; split_cases; reflexivity. Qed.

(** X1. Whatever methods are called on an object, in whatever order and
    with whatever results, [isValid] answers at the end what it answered
    at the start. *)
Theorem isValid_fixed_at_construction (cs : list Call) (p : Pki.t) :
  Pki.isValid (Pki.self (calls cs p)) = Pki.isValid p.
Proof.
  revert p. induction cs as [| c cs IH]; intros p.
  - reflexivity.
  - cbn [calls]. unfold Pki.bind at 1. cbn [Pki.self].
    rewrite IH. unfold Pki.isValid. now rewrite call_itype.
Qed.





End Lifetime.

(** ** What a method changes, logs and returns *)

Section Effects.
Context `{External}.

Lemma skipn_zeros (n m : nat) :
  skipn n (repeat x00 m) = repeat x00 (m - n).
Proof.
  revert m. induction n as [| n IH]; intros m.
  - now rewrite Nat.sub_0_r.
  - destruct m as [| m]; [reflexivity |]. simpl. apply IH.
Qed.

(** Within the buffer, reading [olen] bytes back gives the stored bytes
    followed by the zeros of the initial buffer. *)
Lemma firstn_stored_zeros (out : list byte) (olen : nat) :
  (olen <= POLARSSL_MPI_MAX_SIZE)%nat ->
  firstn olen (Pki.stored Pki.buffer0 out)
  = firstn olen (out ++ repeat x00 (POLARSSL_MPI_MAX_SIZE - List.length out)).
Proof.
  intros Hfit. unfold Pki.stored. rewrite length_buffer0.
  rewrite firstn_firstn, Nat.min_l by exact Hfit.
  unfold Pki.buffer0. now rewrite skipn_zeros.
Qed.

(** X3. A parse starts from a freed context: its status, the native
    context it leaves and its trace are the same whatever the object held
    before, for the private and for the public key. *)
Theorem parse_discards_previous_key (keyData password : QByteArray) (p p' : Pki.t) :
  (Pki.value (Pki.parseKey keyData password p)
   = Pki.value (Pki.parseKey keyData password p') /\
   Pki.ictx (Pki.self (Pki.parseKey keyData password p))
   = Pki.ictx (Pki.self (Pki.parseKey keyData password p')) /\
   Pki.events (Pki.parseKey keyData password p)
   = Pki.events (Pki.parseKey keyData password p')) /\
  (Pki.value (Pki.parsePublicKey keyData p)
   = Pki.value (Pki.parsePublicKey keyData p') /\
   Pki.ictx (Pki.self (Pki.parsePublicKey keyData p))
   = Pki.ictx (Pki.self (Pki.parsePublicKey keyData p')) /\
   Pki.events (Pki.parsePublicKey keyData p)
   = Pki.events (Pki.parsePublicKey keyData p')).
Proof.
  rewrite !parseKey_unfold, !parsePublicKey_unfold. cbn [Pki.value Pki.self Pki.events Pki.ictx].
  repeat split.
Qed.

(** X4. Only [sign], [encrypt] and [decrypt] draw on the random source:
    [reset], the four parse methods and [verify] leave it as it was. *)
Theorem random_source_untouched
        (keyData password message signature : QByteArray) (filePath : QString)
        (algorithm : md_type_t) (p : Pki.t) :
  Pki.irandom (Pki.self (Pki.reset p)) = Pki.irandom p /\
  Pki.irandom (Pki.self (Pki.parseKey keyData password p)) = Pki.irandom p /\
  Pki.irandom (Pki.self (Pki.parsePublicKey keyData p)) = Pki.irandom p /\
  Pki.irandom (Pki.self (Pki.parseKeyFrom filePath password p)) = Pki.irandom p /\
  Pki.irandom (Pki.self (Pki.parsePublicKeyFrom filePath p)) = Pki.irandom p /\
  Pki.irandom (Pki.self (Pki.verify message signature algorithm p)) = Pki.irandom p.
Proof.
  repeat split; run_method; split_cases; reflexivity.
Qed.

(** X5. A method logs one line when it reports a failure and none when it
    succeeds: the parse methods by a non-zero status, [sign], [encrypt]
    and [decrypt] by the null array.  [verify] never logs, whatever the
    status. *)
Theorem one_log_line_per_failure
        (keyData password message signature hash : QByteArray)
        (algorithm : md_type_t) (p : Pki.t) :
  debug_lines (Pki.events (Pki.parseKey keyData password p))
  = (if Pki.value (Pki.parseKey keyData password p) =? 0 then 0%nat else 1%nat) /\
  debug_lines (Pki.events (Pki.parsePublicKey keyData p))
  = (if Pki.value (Pki.parsePublicKey keyData p) =? 0 then 0%nat else 1%nat) /\
  debug_lines (Pki.events (Pki.sign message algorithm p))
  = (if isNull (Pki.value (Pki.sign message algorithm p)) then 1 else 0)%nat /\
  debug_lines (Pki.events (Pki.encrypt hash p))
  = (if isNull (Pki.value (Pki.encrypt hash p)) then 1 else 0)%nat /\
  debug_lines (Pki.events (Pki.decrypt hash p))
  = (if isNull (Pki.value (Pki.decrypt hash p)) then 1 else 0)%nat /\
  debug_lines (Pki.events (Pki.verify message signature algorithm p)) = 0%nat.
Proof.
  repeat split; run_method.
  - destruct (pk_parse_key _ _ _ _ _) as [nRet ctx'].
    cbn [Pki.value Pki.events]. destruct (nRet =? 0); reflexivity.
  - destruct (pk_parse_public_key _ _ _) as [nRet ctx'].
    cbn [Pki.value Pki.events]. destruct (nRet =? 0); reflexivity.
  - destruct (pk_sign _ _ _ _ _) as [[[[nRet out] olen] ctx'] rnd'].
    cbn [Pki.value Pki.events]. destruct (nRet =? 0); reflexivity.
  - destruct (Pki.checkSize hash p); [| reflexivity]. cbn [negb].
    destruct (pk_encrypt _ _ _ _ _) as [[[[nRet out] olen] ctx'] rnd'].
    cbn [Pki.value Pki.events]. destruct (nRet =? 0); reflexivity.
  - destruct (Pki.checkSize hash p); [| reflexivity]. cbn [negb].
    destruct (pk_decrypt _ _ _ _ _) as [[[[nRet out] olen] ctx'] rnd'].
    cbn [Pki.value Pki.events]. destruct (nRet =? 0); reflexivity.
  - destruct (pk_verify _ _ _ _ _ _) as [nRet ctx']. reflexivity.
Qed.

(** X6. The null array is the failure signal of [sign], [encrypt] and
    [decrypt]: the result is null exactly when the size guard refuses or
    the primitive answers a non-zero status.  A success that produced no
    byte gives an empty array that is not null. *)
Theorem null_result_iff_failure
        (message hash : QByteArray) (algorithm : md_type_t) (p : Pki.t) :
  (let '(nRet, _, _, _, _) :=
     pk_sign (Pki.ictx p) algorithm (constData (Pki.prepare message algorithm p)) 0
             (Pki.irandom p) in
   isNull (Pki.value (Pki.sign message algorithm p)) = negb (nRet =? 0)) /\
  (let '(nRet, _, _, _, _) :=
     pk_encrypt (Pki.ictx p) (constData hash) (Qt.length hash)
                POLARSSL_MPI_MAX_SIZE (Pki.irandom p) in
   isNull (Pki.value (Pki.encrypt hash p))
   = negb (Pki.checkSize hash p) || negb (nRet =? 0)) /\
  (let '(nRet, _, _, _, _) :=
     pk_decrypt (Pki.ictx p) (constData hash) (Qt.length hash)
                POLARSSL_MPI_MAX_SIZE (Pki.irandom p) in
   isNull (Pki.value (Pki.decrypt hash p))
   = negb (Pki.checkSize hash p) || negb (nRet =? 0)).
Proof.
  repeat split.
  - destruct (pk_sign _ _ _ _ _) as [[[[nRet out] olen] ctx'] rnd'] eqn:Hnative.
    rewrite (sign_unfold message algorithm p nRet out olen ctx' rnd' Hnative).
    cbn [Pki.value]. destruct (nRet =? 0); reflexivity.
  - destruct (pk_encrypt _ _ _ _ _) as [[[[nRet out] olen] ctx'] rnd'] eqn:Hnative.
    destruct (Pki.checkSize hash p) eqn:Hok.
    + rewrite (encrypt_accepted hash p nRet out olen ctx' rnd' Hok Hnative).
      cbn [Pki.value]. destruct (nRet =? 0); reflexivity.
    + rewrite (encrypt_rejected hash p Hok). reflexivity.
  - destruct (pk_decrypt _ _ _ _ _) as [[[[nRet out] olen] ctx'] rnd'] eqn:Hnative.
    destruct (Pki.checkSize hash p) eqn:Hok.
    + rewrite (decrypt_accepted hash p nRet out olen ctx' rnd' Hok Hnative).
      cbn [Pki.value]. destruct (nRet =? 0); reflexivity.
    + rewrite (decrypt_rejected hash p Hok). reflexivity.
Qed.

(** X7. The length of a result is the length the primitive produced:
    when the produced length [olen] is within the buffer, [sign] returns
    [olen] bytes on status 0 and none otherwise, and [encrypt] and
    [decrypt] return [olen] bytes when the size guard accepts and the
    status is 0, and none otherwise.  The bytes the primitive did not
    store are the zeros the buffer was filled with. *)
Theorem result_length_is_produced_length
        (message hash : QByteArray) (algorithm : md_type_t) (p : Pki.t) :
  (let '(nRet, _, olen, _, _) :=
     pk_sign (Pki.ictx p) algorithm (constData (Pki.prepare message algorithm p)) 0
             (Pki.irandom p) in
   (olen <= POLARSSL_MPI_MAX_SIZE)%nat ->
   Qt.length (Pki.value (Pki.sign message algorithm p))
   = if nRet =? 0 then Z.of_nat olen else 0) /\
  (let '(nRet, out, olen, _, _) :=
     pk_encrypt (Pki.ictx p) (constData hash) (Qt.length hash)
                POLARSSL_MPI_MAX_SIZE (Pki.irandom p) in
   (olen <= POLARSSL_MPI_MAX_SIZE)%nat ->
   Qt.length (Pki.value (Pki.encrypt hash p))
   = (if Pki.checkSize hash p && (nRet =? 0) then Z.of_nat olen else 0) /\
   (Pki.checkSize hash p = true -> nRet = 0 ->
    Pki.value (Pki.encrypt hash p)
    = QByteArray_bytes
        (firstn olen (out ++ repeat x00 (POLARSSL_MPI_MAX_SIZE - List.length out))))) /\
  (let '(nRet, out, olen, _, _) :=
     pk_decrypt (Pki.ictx p) (constData hash) (Qt.length hash)
                POLARSSL_MPI_MAX_SIZE (Pki.irandom p) in
   (olen <= POLARSSL_MPI_MAX_SIZE)%nat ->
   Qt.length (Pki.value (Pki.decrypt hash p))
   = (if Pki.checkSize hash p && (nRet =? 0) then Z.of_nat olen else 0) /\
   (Pki.checkSize hash p = true -> nRet = 0 ->
    Pki.value (Pki.decrypt hash p)
    = QByteArray_bytes
        (firstn olen (out ++ repeat x00 (POLARSSL_MPI_MAX_SIZE - List.length out))))).
Proof.
  repeat split.
  - destruct (pk_sign _ _ _ _ _) as [[[[nRet out] olen] ctx'] rnd'] eqn:Hnative.
    intros Hfit.
    rewrite (sign_unfold message algorithm p nRet out olen ctx' rnd' Hnative).
    cbn [Pki.value]. destruct (nRet =? 0).
    + now apply length_from_buffer_exact.
    + reflexivity.
  - destruct (pk_encrypt _ _ _ _ _) as [[[[nRet out] olen] ctx'] rnd'] eqn:Hnative.
    intros Hfit. split.
    + destruct (Pki.checkSize hash p) eqn:Hok.
      * rewrite (encrypt_accepted hash p nRet out olen ctx' rnd' Hok Hnative).
        cbn [Pki.value andb]. destruct (nRet =? 0).
        -- now apply length_from_buffer_exact.
        -- reflexivity.
      * rewrite (encrypt_rejected hash p Hok). reflexivity.
    + intros Hok ->.
      rewrite (encrypt_accepted hash p 0 out olen ctx' rnd' Hok Hnative).
      cbn [Pki.value Z.eqb]. unfold QByteArray_of.
      now rewrite (firstn_stored_zeros out olen Hfit).
  - destruct (pk_decrypt _ _ _ _ _) as [[[[nRet out] olen] ctx'] rnd'] eqn:Hnative.
    intros Hfit. split.
    + destruct (Pki.checkSize hash p) eqn:Hok.
      * rewrite (decrypt_accepted hash p nRet out olen ctx' rnd' Hok Hnative).
        cbn [Pki.value andb]. destruct (nRet =? 0).
        -- now apply length_from_buffer_exact.
        -- reflexivity.
      * rewrite (decrypt_rejected hash p Hok). reflexivity.
    + intros Hok ->.
      rewrite (decrypt_accepted hash p 0 out olen ctx' rnd' Hok Hnative).
      cbn [Pki.value Z.eqb]. unfold QByteArray_of.
      now rewrite (firstn_stored_zeros out olen Hfit).
Qed.

End Effects.

(** ** The two guards, the empty context and construction *)

Section Guards.
Context `{External}.

Lemma checkSize_after_free (hash : QByteArray) (p : Pki.t) :
  Pki.ictx p = pk_init -> Pki.checkSize hash p = (Qt.length hash =? 0).
Proof.
  intros Hempty. unfold Pki.checkSize. rewrite Hempty.
  change (int_of_size_t (pk_get_len pk_init)) with 0.
  pose proof (length_nonneg hash) as Hpos.
  rewrite Z.geb_leb.
  destruct (Qt.length hash =? 0) eqn:Hzero.
  - apply Z.eqb_eq in Hzero. apply Z.leb_le. lia.
  - apply Z.eqb_neq in Hzero. apply Z.leb_gt. lia.
Qed.

(** X8. The size guard is monotone, and it is the weaker of the two
    guards: a buffer no longer than an accepted one is accepted, and a
    message the size guard refuses is never signed raw: [prepare] hashes
    it under every algorithm. *)
Theorem size_guard_and_prepare (message : QByteArray) (p : Pki.t) :
  (forall shorter : QByteArray,
      Qt.length shorter <= Qt.length message ->
      Pki.checkSize message p = true -> Pki.checkSize shorter p = true) /\
  (Pki.checkSize message p = false ->
   forall algo, Pki.prepare message algo p = Hash_hash message algo).
Proof.
  split.
  - intros shorter Hle Hok. apply checkSize_true_iff in Hok.
    apply checkSize_true_iff. lia.
  - intros Hno algo. apply prepare_hashed_long.
    unfold Pki.checkSize in Hno. rewrite Z.geb_leb in Hno.
    apply Z.leb_gt in Hno. lia.
Qed.

(** X9. A key length that [size_t] holds and [int] does not becomes a
    negative [maxLength]: then the size guard refuses every buffer, the
    empty one included, so [encrypt] and [decrypt] never reach the
    primitive, and [prepare] hashes every message. *)
Theorem key_length_beyond_int (p : Pki.t) :
  INT_MAX < Pki.keySizeBytes p < 2 ^ 32 ->
  forall (hash : QByteArray) (algo : md_type_t),
    Pki.checkSize hash p = false /\
    Pki.prepare hash algo p = Hash_hash hash algo /\
    Pki.encrypt hash p =
    {| Pki.value := QByteArray_null; Pki.self := p;
       Pki.events := [qDebug "invalid hash size for encryption!" []] |} /\
    Pki.decrypt hash p =
    {| Pki.value := QByteArray_null; Pki.self := p;
       Pki.events := [qDebug "invalid hash size for decryption!" []] |}.
Proof.
  intros Hcap hash algo.
  assert (Hneg : int_of_size_t (pk_get_len (Pki.ictx p)) < 0).
  { unfold Pki.keySizeBytes, INT_MAX in Hcap. unfold int_of_size_t.
    change (2 ^ 31) with 2147483648. change (2 ^ 32) with 4294967296 in *.
    replace (pk_get_len (Pki.ictx p) + 2147483648)
      with (pk_get_len (Pki.ictx p) - 2147483648 + 1 * 4294967296) by lia.
    rewrite Z.mod_add by lia. rewrite Z.mod_small; lia. }
  pose proof (length_nonneg hash) as Hpos.
  assert (Hno : Pki.checkSize hash p = false).
  { unfold Pki.checkSize. rewrite Z.geb_leb. apply Z.leb_gt. lia. }
  split; [exact Hno |].
  split; [apply prepare_hashed_long; lia |].
  split; [now apply encrypt_rejected | now apply decrypt_rejected].
Qed.

(** X12. After [reset], whatever the object held: [prepare] hashes every
    message under every algorithm (nothing is shorter than capacity 0),
    and the size guard accepts the buffers of length 0 and no other. *)
Theorem after_reset_guards (message : QByteArray) (algo : md_type_t) (p : Pki.t) :
  Pki.prepare message algo (Pki.self (Pki.reset p)) = Hash_hash message algo /\
  Pki.checkSize message (Pki.self (Pki.reset p)) = (Qt.length message =? 0).
Proof.
  split.
  - apply prepare_hashed_long. cbn [Pki.reset Pki.self Pki.ictx].
    change (int_of_size_t (pk_get_len (pk_free (Pki.ictx p)))) with 0.
    apply length_nonneg.
  - apply checkSize_after_free. reflexivity.
Qed.

(** X13. Whether a constructed object is valid is decided by the
    registry alone: [isValid] holds exactly when the registry has a
    descriptor of a type other than none for the requested type, whatever
    the storage of [ictx] held and whatever [pk_init_ctx] answered.  For a
    type the registry does not know the constructor reports nothing and
    builds the empty object: native type none, key size 0. *)
Theorem constructor_validity
        (storage storage' : pk_context) (rnd rnd' : ctr_drbg_context) (ty : pk_type_t) :
  Pki.isValid (Pki.Pki storage rnd ty) = Pki.isValid (Pki.Pki storage' rnd' ty) /\
  (Pki.isValid (Pki.Pki storage rnd ty) = true <->
   exists info, pk_info_from_type ty = Some info /\ type info <> POLARSSL_PK_NONE) /\
  (pk_info_from_type ty = None ->
   Pki.Pki storage rnd ty
   = {| Pki.irandom := rnd; Pki.itype := POLARSSL_PK_NONE; Pki.ictx := pk_init |} /\
   Pki.type (Pki.Pki storage rnd ty) = POLARSSL_PK_NONE /\
   Pki.keySizeBytes (Pki.Pki storage rnd ty) = 0).
Proof.
  unfold Pki.Pki, Pki.Pki_info, Pki.isValid.
  destruct (pk_info_from_type ty) as [info |]; cbn [Pki.itype].
  - split; [reflexivity |]. split; [| discriminate].
    destruct (pk_type_eq_dec (type info) POLARSSL_PK_NONE) as [Heq | Hne].
    + split; [discriminate |].
      intros [info' [Hsame Hne]]. injection Hsame as <-. contradiction.
    + split; [| reflexivity].
      intros _. exists info. now split.
  - split; [reflexivity |]. split.
    + split; [discriminate | intros [info [Hsome _]]; discriminate].
    + intros _. repeat split.
Qed.

(** X14. Key data, passphrases, signatures and cipher inputs are read
    through [constData] and [length] only: two arrays with the same bytes,
    the null and the empty array among them, give the same result, the
    same object and the same trace. *)
Theorem same_bytes_same_behaviour (a b : QByteArray) :
  constData a = constData b ->
  forall (other : QByteArray) (algorithm : md_type_t) (p : Pki.t),
    Pki.parseKey a other p = Pki.parseKey b other p /\
    Pki.parseKey other a p = Pki.parseKey other b p /\
    Pki.parsePublicKey a p = Pki.parsePublicKey b p /\
    Pki.verify other a algorithm p = Pki.verify other b algorithm p /\
    Pki.encrypt a p = Pki.encrypt b p /\
    Pki.decrypt a p = Pki.decrypt b p.
Proof.
  intros Hsame other algorithm p.
  assert (Hlen : Qt.length a = Qt.length b) by (unfold Qt.length; now rewrite Hsame).
  assert (Hguard : Pki.checkSize a p = Pki.checkSize b p)
    by (unfold Pki.checkSize; now rewrite Hlen).
  repeat split.
  - rewrite !parseKey_unfold. now rewrite Hsame, Hlen.
  - rewrite !parseKey_unfold. now rewrite Hsame, Hlen.
  - rewrite !parsePublicKey_unfold. now rewrite Hsame, Hlen.
  - rewrite !verify_unfold. now rewrite Hsame, Hlen.
  - unfold Pki.encrypt, Pki.bind, Pki.gets. cbn [Pki.value Pki.self Pki.events].
    now rewrite Hguard, Hsame, Hlen.
  - unfold Pki.decrypt, Pki.bind, Pki.gets. cbn [Pki.value Pki.self Pki.events].
    now rewrite Hguard, Hsame, Hlen.
Qed.

End Guards.

(** ** Methods in sequence *)

Section Composition.
Context `{External}.

Lemma prepare_same_length (message : QByteArray) (algo : md_type_t) (p q : Pki.t) :
  pk_get_len (Pki.ictx q) = pk_get_len (Pki.ictx p) ->
  Pki.prepare message algo q = Pki.prepare message algo p.
Proof. intros Hlen. unfold Pki.prepare. now rewrite Hlen. Qed.

Lemma from_buffer_exact (out : list byte) :
  (List.length out <= POLARSSL_MPI_MAX_SIZE)%nat ->
  QByteArray_of (Pki.stored Pki.buffer0 out) (List.length out) = QByteArray_bytes out.
Proof.
  intros Hfit. unfold QByteArray_of.
  rewrite firstn_stored; [reflexivity | now rewrite length_buffer0].
Qed.

(** X10. [decrypt] after [encrypt] adds nothing to what the primitives
    do: when the data passes the size guard, the native encryption
    succeeds with a ciphertext that fits the buffer and the key capacity,
    and the native decryption of that ciphertext gives the data back,
    then [encrypt] returns the ciphertext, [decrypt] of it returns the
    bytes of the data, and the trace is the two native calls with no log
    line. *)
Theorem decrypt_after_encrypt (data : QByteArray) (p : Pki.t)
        (cipher : list byte) ctx1 rnd1 ctx2 rnd2 :
  Pki.checkSize data p = true ->
  pk_encrypt (Pki.ictx p) (constData data) (Qt.length data)
             POLARSSL_MPI_MAX_SIZE (Pki.irandom p)
  = (0, cipher, List.length cipher, ctx1, rnd1) ->
  (List.length cipher <= POLARSSL_MPI_MAX_SIZE)%nat ->
  Z.of_nat (List.length cipher) <= int_of_size_t (pk_get_len ctx1) ->
  pk_decrypt ctx1 cipher (Z.of_nat (List.length cipher)) POLARSSL_MPI_MAX_SIZE rnd1
  = (0, constData data, List.length (constData data), ctx2, rnd2) ->
  (List.length (constData data) <= POLARSSL_MPI_MAX_SIZE)%nat ->
  let e := Pki.encrypt data p in
  let d := Pki.decrypt (Pki.value e) (Pki.self e) in
  Pki.value e = QByteArray_bytes cipher /\
  Pki.value d = QByteArray_bytes (constData data) /\
  Pki.events e ++ Pki.events d
  = [call_pk_encrypt (constData data) (Qt.length data) POLARSSL_MPI_MAX_SIZE;
     call_pk_decrypt cipher (Z.of_nat (List.length cipher)) POLARSSL_MPI_MAX_SIZE].
Proof.
  intros Hok Henc Hfit Hcap Hdec Hfit' e d. subst d e.
  rewrite (encrypt_accepted data p 0 cipher _ ctx1 rnd1 Hok Henc).
  cbn [Pki.value Pki.self Pki.events Z.eqb].
  rewrite (from_buffer_exact cipher Hfit).
  assert (Hok' : Pki.checkSize (QByteArray_bytes cipher)
                               {| Pki.irandom := rnd1; Pki.itype := Pki.itype p;
                                  Pki.ictx := ctx1 |} = true).
  { apply checkSize_true_iff. cbn [Pki.ictx]. unfold Qt.length. cbn [constData]. lia. }
  rewrite (decrypt_accepted (QByteArray_bytes cipher) _ 0 (constData data)
                            (List.length (constData data)) ctx2 rnd2 Hok' Hdec).
  cbn [Pki.value Pki.self Pki.events Z.eqb].
  rewrite (from_buffer_exact (constData data) Hfit').
  repeat split.
Qed.

(** X11. [verify] after [sign] checks the signature against the digest
    that was signed: when the native signature succeeds with bytes that
    fit the buffer and leaves the key length as it was, [sign] returns
    those bytes, and [verify] of the same message under the same algorithm
    hands the primitive the same prepared message, the signature and its
    length, and returns the status of that call. *)
Theorem verify_after_sign (message : QByteArray) (algorithm : md_type_t) (p : Pki.t)
        (sig : list byte) ctx1 rnd1 :
  pk_sign (Pki.ictx p) algorithm (constData (Pki.prepare message algorithm p)) 0
          (Pki.irandom p)
  = (0, sig, List.length sig, ctx1, rnd1) ->
  (List.length sig <= POLARSSL_MPI_MAX_SIZE)%nat ->
  pk_get_len ctx1 = pk_get_len (Pki.ictx p) ->
  let s := Pki.sign message algorithm p in
  let v := Pki.verify message (Pki.value s) algorithm (Pki.self s) in
  Pki.value s = QByteArray_bytes sig /\
  Pki.events v
  = [call_pk_verify algorithm (constData (Pki.prepare message algorithm p)) 0
                    sig (Z.of_nat (List.length sig))] /\
  Pki.value v
  = fst (pk_verify ctx1 algorithm (constData (Pki.prepare message algorithm p)) 0
                   sig (Z.of_nat (List.length sig))).
Proof.
  intros Hsign Hfit Hlen s v. subst v s.
  rewrite (sign_unfold message algorithm p 0 sig _ ctx1 rnd1 Hsign).
  cbn [Pki.value Pki.self Z.eqb].
  rewrite (from_buffer_exact sig Hfit).
  rewrite verify_unfold. cbn [Pki.value Pki.events Pki.ictx constData].
  rewrite (prepare_same_length message algorithm p
             {| Pki.irandom := rnd1; Pki.itype := Pki.itype p; Pki.ictx := ctx1 |} Hlen).
  repeat split.
Qed.

End Composition.

(** ** The further properties on concrete inputs *)

(** X8 on the four-byte key: two bytes pass since four do; five bytes are
    refused by the size guard and hashed by [prepare] even with no
    algorithm. *)
Lemma size_guard_and_prepare_witness :
  @Pki.checkSize Demo.external (ba "ab") Demo.loaded = true /\
  @Pki.checkSize Demo.external (ba "abcde") Demo.loaded = false /\
  @Pki.prepare Demo.external (ba "abcde") POLARSSL_MD_NONE Demo.loaded
  = @Hash_hash Demo.external (ba "abcde") POLARSSL_MD_NONE.
Proof.
  destruct (@size_guard_and_prepare Demo.external (ba "abcd") Demo.loaded)
    as [Hmono _].
  destruct (@size_guard_and_prepare Demo.external (ba "abcde") Demo.loaded)
    as [_ Hhashed].
  split; [| split].
  - apply Hmono; [vm_compute; discriminate | reflexivity].
  - reflexivity.
  - apply Hhashed. reflexivity.
Defined.

(** X9 on a key of [2 ^ 31] bytes: even the null array is refused. *)
Lemma key_length_beyond_int_witness :
  INT_MAX < Pki.keySizeBytes Wide.typed < 2 ^ 32 /\
  @Pki.checkSize Wide.external QByteArray_null Wide.typed = false /\
  Pki.value (@Pki.encrypt Wide.external QByteArray_null Wide.typed) = QByteArray_null /\
  @Pki.prepare Wide.external (ba "abc") POLARSSL_MD_NONE Wide.typed
  = @Hash_hash Wide.external (ba "abc") POLARSSL_MD_NONE.
Proof.
  assert (Hcap : INT_MAX < Pki.keySizeBytes Wide.typed < 2 ^ 32)
    by (vm_compute; split; reflexivity).
  destruct (@key_length_beyond_int Wide.external Wide.typed Hcap
                                   QByteArray_null POLARSSL_MD_NONE)
    as [Hno [_ [Henc _]]].
  destruct (@key_length_beyond_int Wide.external Wide.typed Hcap
                                   (ba "abc") POLARSSL_MD_NONE)
    as [_ [Hhashed _]].
  split; [exact Hcap |].
  split; [exact Hno |].
  split; [rewrite Henc; reflexivity | exact Hhashed].
Defined.

(** X10 on the four-byte key and the reversing stand-in cipher. *)
Lemma decrypt_after_encrypt_witness :
  let e := @Pki.encrypt Demo.external (ba "abcd") Demo.loaded in
  let d := @Pki.decrypt Demo.external (Pki.value e) (Pki.self e) in
  Pki.value e = ba "dcba" /\ Pki.value d = ba "abcd".
Proof.
  destruct (@decrypt_after_encrypt Demo.external (ba "abcd") Demo.loaded
              (Demo.bytes "dcba") (Pki.ictx Demo.loaded) 1%nat
              (Pki.ictx Demo.loaded) 2%nat)
    as [Henc [Hdec _]].
  - reflexivity.
  - reflexivity.
  - apply Nat.leb_le. reflexivity.
  - vm_compute. discriminate.
  - reflexivity.
  - apply Nat.leb_le. reflexivity.
  - split; [exact Henc | exact Hdec].
Defined.

(** X11 on the four-byte key and the reversing stand-in signature. *)
Lemma verify_after_sign_witness :
  let s := @Pki.sign Demo.external (ba "abc") POLARSSL_MD_NONE Demo.loaded in
  let v := @Pki.verify Demo.external (ba "abc") (Pki.value s) POLARSSL_MD_NONE (Pki.self s) in
  Pki.value s = ba "cba" /\
  Pki.events v
  = [call_pk_verify POLARSSL_MD_NONE (Demo.bytes "abc") 0 (Demo.bytes "cba") 3] /\
  Pki.value v = 0.
Proof.
  destruct (@verify_after_sign Demo.external (ba "abc") POLARSSL_MD_NONE Demo.loaded
              (Demo.bytes "cba") (Pki.ictx Demo.loaded) 1%nat)
    as [Hsig [Hcall Hstatus]].
  - reflexivity.
  - apply Nat.leb_le. reflexivity.
  - reflexivity.
  - split; [exact Hsig |]. split; [exact Hcall |].
    rewrite Hstatus. reflexivity.
Defined.

(** X13 on the stand-in registry, which knows RSA and does not know
    ECDSA: an ECDSA object is the empty one; an RSA object is valid even
    on a storage already in use, where the stand-in initialisation fails
    and leaves the storage as it was. *)
Lemma constructor_validity_witness :
  @pk_info_from_type Demo.external POLARSSL_PK_ECDSA = None /\
  @Pki.Pki Demo.external (Pki.ictx Demo.loaded) 0%nat POLARSSL_PK_ECDSA = Demo.empty /\
  fst (@pk_init_ctx Demo.external (Pki.ictx Demo.loaded) Demo.rsa_info)
  = Demo.ERR_BAD_INPUT_DATA /\
  Pki.isValid (@Pki.Pki Demo.external (Pki.ictx Demo.loaded) 0%nat POLARSSL_PK_RSA)
  = true.
Proof.
  destruct (@constructor_validity Demo.external (Pki.ictx Demo.loaded) None
                                  0%nat 0%nat POLARSSL_PK_ECDSA)
    as [_ [_ Hunknown]].
  destruct (@constructor_validity Demo.external (Pki.ictx Demo.loaded) None
                                  0%nat 0%nat POLARSSL_PK_RSA)
    as [_ [Hknown _]].
  destruct (Hunknown eq_refl) as [Hempty _].
  split; [reflexivity |].
  split; [rewrite Hempty; reflexivity |].
  split; [reflexivity |].
  apply Hknown. exists Demo.rsa_info. split; [reflexivity | discriminate].
Defined.

(** X14 on the null and the empty array. *)
Lemma same_bytes_same_behaviour_witness :
  constData QByteArray_null = constData (QByteArray_bytes []) /\
  @Pki.parseKey Demo.external QByteArray_null (ba "pw") Demo.empty
  = @Pki.parseKey Demo.external (QByteArray_bytes []) (ba "pw") Demo.empty /\
  @Pki.encrypt Demo.external QByteArray_null Demo.loaded
  = @Pki.encrypt Demo.external (QByteArray_bytes []) Demo.loaded.
Proof.
  destruct (@same_bytes_same_behaviour Demo.external QByteArray_null
              (QByteArray_bytes []) eq_refl (ba "pw") POLARSSL_MD_NONE Demo.empty)
    as [Hparse _].
  destruct (@same_bytes_same_behaviour Demo.external QByteArray_null
              (QByteArray_bytes []) eq_refl (ba "pw") POLARSSL_MD_NONE Demo.loaded)
    as [_ [_ [_ [_ [Henc _]]]]].
  split; [reflexivity |].
  split; [exact Hparse | exact Henc].
Defined.

(** X7 on the four-byte key: a signature of three bytes, a ciphertext of
    four bytes, and no byte for an input the size guard refuses. *)
Lemma result_length_is_produced_length_witness :
  Qt.length (Pki.value (@Pki.sign Demo.external (ba "abc") POLARSSL_MD_NONE Demo.loaded))
  = 3 /\
  Qt.length (Pki.value (@Pki.encrypt Demo.external (ba "abcd") Demo.loaded)) = 4 /\
  Pki.value (@Pki.decrypt Demo.external (ba "dcba") Demo.loaded) = ba "abcd" /\
  Qt.length (Pki.value (@Pki.encrypt Demo.external (ba "abcde") Demo.loaded)) = 0.
Proof.
  destruct (@result_length_is_produced_length Demo.external (ba "abc") (ba "abcd")
                                              POLARSSL_MD_NONE Demo.loaded)
    as [Hsign [Henc _]].
  destruct (@result_length_is_produced_length Demo.external (ba "abc") (ba "dcba")
                                              POLARSSL_MD_NONE Demo.loaded)
    as [_ [_ Hdec]].
  destruct (@result_length_is_produced_length Demo.external (ba "abc") (ba "abcde")
                                              POLARSSL_MD_NONE Demo.loaded)
    as [_ [Hrefused _]].
  split; [apply Hsign; apply Nat.leb_le; reflexivity |].
  split; [apply Henc; apply Nat.leb_le; reflexivity |].
  split.
  - destruct Hdec as [_ Hbytes]; [apply Nat.leb_le; reflexivity |].
    rewrite Hbytes; reflexivity.
  - apply Hrefused. apply Nat.leb_le. reflexivity.
Defined.
